(** * The updateLayer patcher (fix-update-layer.py)

    A shallow embedding of the one-shot maintenance script that rewrites
    the [updateLayer] callback of [src/contexts/StudioContext.tsx], and the
    properties of it that the specification states.

    Layout: the text primitives the script uses ([in], [!=]), a model of
    the part of Python's [re] module that [re.sub] exercises, the script
    itself over an explicit world (one file, standard output), the
    JavaScript callback carried by the replacement text, and then the
    lemmas and theorems. *)

From stdpp Require Import gmap strings list pretty.
From Stdlib Require Import Ascii ZArith Lia.


(** ** Text

    A Python [str] is modelled by the list of its characters.  The file is
    decoded as UTF-8 and every constant of the script that takes part in a
    comparison is ASCII, so a character is an [ascii]; a non-ASCII
    character of the file is the run of its UTF-8 bytes, which no ASCII
    character is part of. *)

Abbreviation text := (list ascii).

Definition chars (s : string) : text := String.list_ascii_of_string s.

(** [s.startswith(p)] *)
Fixpoint starts_with (p s : text) : bool :=
  match p, s with
  | [], _ => true
  | _ :: _, [] => false
  | a :: p', b :: s' => Ascii.eqb a b && starts_with p' s'
  end.

(** [s.find(p)]: the offset of the leftmost occurrence of [p] in [s]. *)
Fixpoint find (p s : text) : option nat :=
  if starts_with p s then Some 0
  else match s with
       | [] => None
       | _ :: s' => S <$> find p s'
       end.

(** [p in s] *)
Definition contains (p s : text) : bool :=
  match find p s with Some _ => true | None => false end.

(** [a == b] on strings; the script tests [new_content != content]. *)
Fixpoint text_eqb (a b : text) : bool :=
  match a, b with
  | [], [] => true
  | x :: a', y :: b' => Ascii.eqb x y && text_eqb a' b'
  | _, _ => false
  end.

(** [s.replace(old, new)]: plain literal replacement, written the way
    [str.replace] works, by repeated [find] from the end of the previous
    occurrence.  The fuel bounds the number of occurrences ([length s] is
    always enough, see [str_replace]). *)
Fixpoint replace_from (fuel : nat) (old new s : text) : text :=
  match fuel with
  | 0 => s
  | S fuel' =>
      match find old s with
      | None => s
      | Some i =>
          take i s ++ new ++ replace_from fuel' old new (drop (i + length old) s)
      end
  end.

Definition str_replace (old new s : text) : text :=
  match old with
  | [] => new ++ flat_map (fun c => c :: new) s
  | _ :: _ => replace_from (length s) old new s
  end.

(** Two texts disagree at some position that both have: neither is a
    prefix of the other. *)
Fixpoint clash (a b : text) : bool :=
  match a, b with
  | x :: a', y :: b' => if Ascii.eqb x y then clash a' b' else true
  | _, _ => false
  end.

(** ** The fragment of Python's [re] that the script relies on

    Patterns are sequences of single-character atoms and zero-width
    assertions, each atom optionally followed by one greedy quantifier.
    Groups, classes, alternation, counted and lazy repetition and the
    alphanumeric escapes are outside the fragment: [compile] answers
    [None] on them. *)
Module re.

Inductive atom :=
| Chr (c : ascii)     (* an ordinary character, or an escaped one *)
| Dot                 (* [.]: any character except a newline *)
| Bol                 (* [^] *)
| Eol.                (* [$] *)

Inductive quant := One | Opt | Star | Plus.

Definition regex := list (atom * quant).

Definition is_alnum (c : ascii) : bool :=
  let n := nat_of_ascii c in
  (Nat.leb 48 n && Nat.leb n 57) || (Nat.leb 65 n && Nat.leb n 90)
  || (Nat.leb 97 n && Nat.leb n 122).

Definition newline : ascii := "010"%char.

(** A quantifier applies to the item parsed last, which must be a
    character atom that has none yet ("nothing to repeat", "multiple
    repeat" otherwise). *)
Definition quantify (q : quant) (acc : regex) : option regex :=
  match acc with
  | (Chr c, One) :: acc' => Some ((Chr c, q) :: acc')
  | (Dot, One) :: acc' => Some ((Dot, q) :: acc')
  | _ => None
  end.

(** [acc] holds the items parsed so far, last first. *)
Fixpoint parse (p : text) (acc : regex) : option regex :=
  match p with
  | [] => Some (rev acc)
  | c :: p' =>
      match c with
      | "\"%char =>
          match p' with
          | [] => None
          | e :: p'' =>
              if is_alnum e then None else parse p'' ((Chr e, One) :: acc)
          end
      | "."%char => parse p' ((Dot, One) :: acc)
      | "^"%char => parse p' ((Bol, One) :: acc)
      | "$"%char => parse p' ((Eol, One) :: acc)
      | "*"%char => acc' ← quantify Star acc; parse p' acc'
      | "+"%char => acc' ← quantify Plus acc; parse p' acc'
      | "?"%char => acc' ← quantify Opt acc; parse p' acc'
      | "("%char | ")"%char | "["%char | "{"%char | "|"%char => None
      | _ => parse p' ((Chr c, One) :: acc)
      end
  end.

Definition compile (pattern : string) : option regex :=
  parse (chars pattern) [].

(** The assertions look at the character before the current position
    ([None] at the start of the subject) and at the rest of the subject.
    [multiline] is the [re.MULTILINE] flag. *)
Definition at_bol (multiline : bool) (prev : option ascii) : bool :=
  match prev with
  | None => true
  | Some c => multiline && Ascii.eqb c newline
  end.

Definition at_eol (multiline : bool) (s : text) : bool :=
  match s with
  | [] => true
  | c :: s' =>
      Ascii.eqb c newline
      && (multiline || match s' with [] => true | _ => false end)
  end.

Definition eats (a : atom) (c : ascii) : bool :=
  match a with
  | Chr x => Ascii.eqb x c
  | Dot => negb (Ascii.eqb c newline)
  | Bol | Eol => false
  end.

(** [match_here m r prev s]: the length of the match of [r] at the start
    of [s] that the backtracking matcher finds first, if there is one.
    Greedy quantifiers try the longer alternative first. *)
Fixpoint match_here (multiline : bool) (r : regex) {struct r}
  : option ascii → text → option nat :=
  match r with
  | [] => fun _ _ => Some 0
  | (a, q) :: r' =>
      let rest := match_here multiline r' in
      let many :=
        fix many (prev : option ascii) (s : text) {struct s} : option nat :=
          match s with
          | c :: s' =>
              if eats a c then
                match many (Some c) s' with
                | Some n => Some (S n)
                | None => rest prev s
                end
              else rest prev s
          | [] => rest prev s
          end in
      match a with
      | Bol => fun prev s => if at_bol multiline prev then rest prev s else None
      | Eol => fun prev s => if at_eol multiline s then rest prev s else None
      | Chr _ | Dot =>
          fun prev s =>
            match q with
            | One =>
                match s with
                | c :: s' => if eats a c then S <$> rest (Some c) s' else None
                | [] => None
                end
            | Opt =>
                match s with
                | c :: s' =>
                    if eats a c then
                      match rest (Some c) s' with
                      | Some n => Some (S n)
                      | None => rest prev s
                      end
                    else rest prev s
                | [] => rest prev s
                end
            | Star => many prev s
            | Plus =>
                match s with
                | c :: s' => if eats a c then S <$> many (Some c) s' else None
                | [] => None
                end
            end
      end
  end.

(** [re.search]: offset and length of the leftmost match. *)
Fixpoint search_from (multiline : bool) (r : regex) (prev : option ascii)
    (s : text) : option (nat * nat) :=
  match match_here multiline r prev s with
  | Some n => Some (0, n)
  | None =>
      match s with
      | [] => None
      | c :: s' =>
          (fun '(i, n) => (S i, n)) <$> search_from multiline r (Some c) s'
      end
  end.

Definition search (pattern : string) (s : text) (multiline : bool)
  : option (option (nat * nat)) :=
  r ← compile pattern; Some (search_from multiline r None s).

(** Replacement templates: a backslash starts an escape; [\g<0>] stands
    for the matched text.  The pattern fragment has no groups, so any
    other group reference is an error, as is an unknown letter escape. *)
Inductive titem := TLit (c : ascii) | TWhole.

Fixpoint parse_template (t : text) : option (list titem) :=
  match t with
  | [] => Some []
  | c :: t' =>
      match c with
      | "\"%char =>
          match t' with
          | "\"%char :: t'' => cons (TLit "\"%char) <$> parse_template t''
          | "n"%char :: t'' => cons (TLit newline) <$> parse_template t''
          | "t"%char :: t'' => cons (TLit "009"%char) <$> parse_template t''
          | "r"%char :: t'' => cons (TLit "013"%char) <$> parse_template t''
          | "g"%char :: "<"%char :: "0"%char :: ">"%char :: t'' =>
              cons TWhole <$> parse_template t''
          | e :: t'' =>
              if is_alnum e then None
              else (fun r => TLit "\"%char :: TLit e :: r) <$> parse_template t''
          | [] => None
          end
      | _ => cons (TLit c) <$> parse_template t'
      end
  end.

Definition expand (tpl : list titem) (matched : text) : text :=
  flat_map (fun i => match i with TLit c => [c] | TWhole => matched end) tpl.

(** The loop of [re.sub] with unlimited count.  [skip] counts the
    characters of the current match that are still to be passed over;
    at [skip = 0] the next search starts here.  An empty match is
    replaced and the scan moves on by one character (the engine refuses
    a second empty match at the same position). *)
Fixpoint sub_loop (multiline : bool) (r : regex) (tpl : list titem)
    (skip : nat) (prev : option ascii) (s : text) {struct s} : text :=
  match s with
  | [] =>
      match skip, match_here multiline r prev [] with
      | 0, Some _ => expand tpl []
      | _, _ => []
      end
  | c :: s' =>
      match skip with
      | S k => sub_loop multiline r tpl k (Some c) s'
      | 0 =>
          match match_here multiline r prev s with
          | Some (S n) =>
              expand tpl (take (S n) s) ++ sub_loop multiline r tpl n (Some c) s'
          | Some 0 =>
              expand tpl [] ++ c :: sub_loop multiline r tpl 0 (Some c) s'
          | None => c :: sub_loop multiline r tpl 0 (Some c) s'
          end
      end
  end.

(** [re.sub(pattern, repl, string, flags=...)]; [None] stands for the
    [re.error] of a pattern or template outside the fragment. *)
Definition sub (pattern repl : string) (s : text) (multiline : bool)
  : option text :=
  r ← compile pattern;
  tpl ← parse_template (chars repl);
  Some (sub_loop multiline r tpl 0 None s).

(** The regex of a text read character by character. *)
Definition literal (p : text) : regex := (fun c => (Chr c, One)) <$> p.

End re.

(** ** The constants of the script *)

Definition target_path : string := "src/contexts/StudioContext.tsx".

Definition old_pattern : string :=
"  const updateLayer = useCallback\(\(id: string, updates: Partial<Layer>\) => \{
    setLayers\(prev =>
      prev\.map\(layer =>
        layer\.id === id \? \{ \.\.\.layer, \.\.\.updates \} : layer
      \)
    \);
    setIsDirty\(true\);
  \}, \[\]\);".

Definition new_code : string :=
"  const updateLayer = useCallback((id: string, updates: Partial<Layer>) => {
    setLayers(prev =>
      prev.map(layer => {
        if (layer.id !== id) return layer;

        // Auto-increment version if canvas is being updated to force React re-renders
        // This ensures that even when the canvas reference stays the same but pixels change,
        // React will detect the update and trigger composition
        const newUpdates = updates.canvas
          ? { ...updates, version: (updates.version ?? (layer.version || 0) + 1) }
          : updates;

        return { ...layer, ...newUpdates };
      })
    );
    setIsDirty(true);
  }, []);".

(** The text that [old_pattern] describes once its escapes are read: the
    body of [updateLayer] before the patch. *)
Definition old_fragment : string :=
"  const updateLayer = useCallback((id: string, updates: Partial<Layer>) => {
    setLayers(prev =>
      prev.map(layer =>
        layer.id === id ? { ...layer, ...updates } : layer
      )
    );
    setIsDirty(true);
  }, []);".

Definition signature : string :=
  "const updateLayer = useCallback((id: string, updates: Partial<Layer>)".

Definition patched_marker : string := "const newUpdates = updates.canvas".

Definition msg_fixed : string := "✓ Fixed updateLayer function".
Definition msg_not_found : string := "⚠ Pattern not found - trying manual search...".
Definition msg_found : string := "  Found updateLayer function".
Definition msg_already : string := "  ✓ Already patched!".
Definition msg_manual : string := "  ✗ Not patched - manual intervention needed".

Definition old_text : text := chars old_fragment.
Definition new_text : text := chars new_code.

(** ** The world of one run

    The script touches one path of the file system and standard output.
    A file holds the text that reading it in text mode gives, or bytes
    that are not UTF-8 ([body = None]); [written] logs every completed
    write, so that "no write" can be told from "a write of the same
    text". *)

Inductive exn :=
| FileNotFoundError
| PermissionError
| UnicodeDecodeError
| ReError.

Record file := File {
  can_read : bool;
  can_write : bool;
  body : option text
}.

Record world := World {
  fs : gmap string file;
  stdout : list string;
  written : list (string * text)
}.

(** State and uncaught exceptions: an exception keeps the world reached
    so far and skips the rest of the run. *)
Definition M (A : Type) : Type := world → (exn + A) * world.

#[global] Instance M_ret : MRet M := fun A x w => (inr x, w).

#[global] Instance M_bind : MBind M := fun A B f m w =>
  match m w with
  | (inl e, w') => (inl e, w')
  | (inr x, w') => f x w'
  end.

Definition raise {A : Type} (e : exn) : M A := fun w => (inl e, w).

(** [with open(path, 'r', encoding='utf-8') as f: f.read()] *)
Definition read_text (path : string) : M text := fun w =>
  match fs w !! path with
  | None => (inl FileNotFoundError, w)
  | Some f =>
      if can_read f then
        match body f with
        | Some t => (inr t, w)
        | None => (inl UnicodeDecodeError, w)
        end
      else (inl PermissionError, w)
  end.

(** [with open(path, 'w', encoding='utf-8') as f: f.write(t)]: the file
    is created when missing and its whole content replaced. *)
Definition write_text (path : string) (t : text) : M unit := fun w =>
  let store f :=
    (inr (),
     {| fs := <[path := f]> (fs w);
        stdout := stdout w;
        written := written w ++ [(path, t)] |}) in
  match fs w !! path with
  | None => store {| can_read := true; can_write := true; body := Some t |}
  | Some f =>
      if can_write f
      then store {| can_read := can_read f; can_write := true; body := Some t |}
      else (inl PermissionError, w)
  end.

(** [print(line)] *)
Definition print (line : string) : M unit := fun w =>
  (inr (),
   {| fs := fs w; stdout := stdout w ++ [line]; written := written w |}).

Definition re_sub (pattern repl : string) (s : text) (multiline : bool)
  : M text :=
  match re.sub pattern repl s multiline with
  | Some t => mret t
  | None => raise ReError
  end.

(** ** The script *)

Definition main : M unit :=
  content ← read_text target_path;
  new_content ← re_sub old_pattern new_code content true;
  if negb (text_eqb new_content content) then
    write_text target_path new_content;;
    print msg_fixed
  else
    print msg_not_found;;
    if contains (chars signature) content then
      print msg_found;;
      if contains (chars patched_marker) content then print msg_already
      else print msg_manual
    else mret ().

(** A process starts with nothing printed and nothing written. *)
Definition boot (files : gmap string file) : world :=
  {| fs := files; stdout := []; written := [] |}.

Definition run (files : gmap string file) : (exn + unit) * world :=
  main (boot files).

(** A readable and writable text file. *)
Definition plain (t : text) : file :=
  {| can_read := true; can_write := true; body := Some t |}.

(** The text of the target file, as a later reader would get it. *)
Definition target_text (w : world) : option text :=
  f ← fs w !! target_path; body f.

(** The lines of the fallback diagnostics, in the order they are printed. *)
Definition report (content : text) : list string :=
  msg_not_found ::
  (if contains (chars signature) content then
     msg_found ::
     (if contains (chars patched_marker) content then [msg_already]
      else [msg_manual])
   else []).

(** The status lines that occur in the script. *)
Definition status_lines : list string :=
  [msg_fixed; msg_not_found; msg_found; msg_already; msg_manual].

(** ** The callback that the replacement installs

    The JavaScript of [new_code], read as a function.  Objects are finite
    maps from property names to values; the numbers that occur are the
    integer version counters. *)
Module js.

Inductive value :=
| Undefined
| Null
| Bool (b : bool)
| Num (n : Z)
| Str (s : string)
| Ref (addr : nat).     (* an object, such as a canvas element *)

#[global] Instance value_eq_dec : EqDecision value.
Proof. solve_decision. Defined.

(** [o.k] *)
Definition get (o : gmap string value) (k : string) : value :=
  default Undefined (o !! k).

Definition truthy (v : value) : bool :=
  match v with
  | Undefined | Null => false
  | Bool b => b
  | Num n => negb (n =? 0)%Z
  | Str s => negb (String.eqb s ""%string)
  | Ref _ => true
  end.

(** [a !== b] *)
Definition strict_ne (a b : value) : bool := negb (bool_decide (a = b)).

(** [a || b] *)
Definition or (a b : value) : value := if truthy a then a else b.

(** The integers that a double holds exactly form the range from [-2^53]
    to [2^53]; on them, and when the sum is among them, the addition of
    doubles is the addition of integers.  Numbers beyond, fractions and
    [NaN] are outside the model. *)
Definition exact (n : Z) : bool := (- 2 ^ 53 <=? n)%Z && (n <=? 2 ^ 53)%Z.

Definition to_number (v : value) : option Z :=
  match v with
  | Num n => if exact n then Some n else None
  | Bool b => Some (if b then 1 else 0)%Z
  | Null => Some 0%Z
  | Undefined | Str _ | Ref _ => None
  end.

Definition to_string (v : value) : option string :=
  match v with
  | Undefined => Some "undefined"%string
  | Null => Some "null"%string
  | Bool b => Some (if b then "true" else "false")%string
  | Num n => if exact n then Some (pretty n) else None
  | Str s => Some s
  | Ref _ => None
  end.

Definition is_string (v : value) : bool :=
  match v with Str _ => true | _ => false end.

(** [a + b]: concatenation when one operand is a string, addition
    otherwise.  The conversion of an object to a primitive, [NaN] and
    sums that a double would round are outside the model ([None]). *)
Definition add (a b : value) : option value :=
  if is_string a || is_string b then
    x ← to_string a; y ← to_string b; Some (Str (x +:+ y))
  else
    x ← to_number a; y ← to_number b;
    if exact (x + y) then Some (Num (x + y)) else None.

(** [a ?? b]; [b] is only looked at when [a] is null or undefined. *)
Definition coalesce (a : value) (b : option value) : option value :=
  match a with
  | Undefined | Null => b
  | _ => Some a
  end.

(** [const newUpdates = updates.canvas
      ? { ...updates, version: (updates.version ?? (layer.version || 0) + 1) }
      : updates;] *)
Definition newUpdates (updates layer : gmap string value)
  : option (gmap string value) :=
  if truthy (get updates "canvas") then
    v ← coalesce (get updates "version")
          (add (or (get layer "version") (Num 0)) (Num 1));
    Some (<["version" := v]> updates)
  else Some updates.

(** The arrow function given to [prev.map]. *)
Definition update_one (id : value) (updates layer : gmap string value)
  : option (gmap string value) :=
  if strict_ne (get layer "id") id then Some layer
  else nu ← newUpdates updates layer; Some (nu ∪ layer).

Record studio := Studio {
  layers : list (gmap string value);
  isDirty : bool
}.

(** [updateLayer(id, updates)]: [setLayers(prev => prev.map(...))] and
    then [setIsDirty(true)]. *)
Definition updateLayer (id : string) (updates : gmap string value)
    (st : studio) : option studio :=
  ls ← mapM (update_one (Str id) updates) (layers st);
  Some {| layers := ls; isDirty := true |}.

(** The arrow function of the original fragment, the one [old_pattern]
    describes:
    [layer => layer.id === id ? { ...layer, ...updates } : layer]. *)
Definition update_one_old (id : value) (updates layer : gmap string value)
  : gmap string value :=
  if bool_decide (get layer "id" = id) then updates ∪ layer else layer.

(** The prior versions on which the model evaluates
    [(layer.version || 0) + 1]: anything but an object or a number whose
    successor a double would round. *)
Definition countable (version : value) : bool :=
  match version with
  | Ref _ => false
  | Num n => (- 2 ^ 53 <=? n)%Z && (n <? 2 ^ 53)%Z
  | Undefined | Null | Bool _ | Str _ => true
  end.

End js.

(** * Properties *)

(** ** Prefixes and occurrences *)

Lemma text_eqb_eq (a b : text) : text_eqb a b = true ↔ a = b.
Proof.
  revert b; induction a as [|x a IH]; intros [|y b]; simpl; try easy.
  rewrite andb_true_iff, Ascii.eqb_eq, IH. split.
  - intros [-> ->]; reflexivity.
  - intros [= -> ->]; auto.
Qed.

Lemma text_eqb_neq (a b : text) : text_eqb a b = false ↔ a ≠ b.
Proof.
  rewrite <- text_eqb_eq. destruct (text_eqb a b); split; congruence.
Qed.

Lemma starts_with_app (p t : text) : starts_with p (p ++ t) = true.
Proof.
  induction p as [|c p IH]; simpl; [reflexivity|].
  rewrite Ascii.eqb_refl. exact IH.
Qed.

Lemma starts_with_split (p s : text) :
  starts_with p s = true → s = p ++ drop (length p) s.
Proof.
  revert s; induction p as [|c p IH]; intros [|d s]; simpl; try easy.
  rewrite andb_true_iff, Ascii.eqb_eq. intros [-> H]. f_equal. auto.
Qed.

Lemma starts_with_length (p s : text) :
  starts_with p s = true → length p ≤ length s.
Proof.
  intros H. rewrite (starts_with_split p s H), length_app. lia.
Qed.

Lemma starts_with_weaken (p a b : text) :
  starts_with p a = true → starts_with p (a ++ b) = true.
Proof.
  intros H. rewrite (starts_with_split p a H), <- app_assoc.
  apply starts_with_app.
Qed.

(** A prefix of [a ++ b] that does not fit in [a] continues in [b]. *)
Lemma starts_with_straddle (p a b : text) :
  starts_with p (a ++ b) = true →
  starts_with p a = true
  ∨ (length a < length p ∧ starts_with (drop (length a) p) b = true).
Proof.
  revert p; induction a as [|x a IH]; intros p H.
  - destruct p as [|c p]; [left; reflexivity|right].
    simpl in *. split; [lia|exact H].
  - destruct p as [|c p]; [left; reflexivity|].
    simpl in H. apply andb_true_iff in H as [Hc H].
    destruct (IH p H) as [Ha|[Hlen Hb]].
    + left. simpl. rewrite Hc. exact Ha.
    + right. simpl. split; [lia|exact Hb].
Qed.

Lemma clash_starts_with (a b t : text) :
  clash a b = true → starts_with a (b ++ t) = false.
Proof.
  revert b; induction a as [|x a IH]; intros [|y b]; simpl; try easy.
  destruct (Ascii.eqb x y); simpl; auto.
Qed.

Lemma find_None (p s : text) :
  find p s = None ↔ ∀ q, starts_with p (drop q s) = false.
Proof.
  induction s as [|c s IH].
  - simpl. destruct (starts_with p []) eqn:E.
    + split; [easy|]. intros H. specialize (H 0). simpl in H. congruence.
    + split; [|easy]. intros _ q. rewrite drop_nil. exact E.
  - cbn [find]. destruct (starts_with p (c :: s)) eqn:E.
    + split; [easy|]. intros H. specialize (H 0). simpl in H. congruence.
    + destruct (find p s) as [i|] eqn:F; simpl.
      * split; [easy|]. intros H.
        assert (Some i = None) as [=]. apply IH. intros q. apply (H (S q)).
      * split; [|easy]. intros _ [|q]; [exact E|].
        simpl. apply IH. reflexivity.
Qed.

Lemma find_Some (p s : text) (i : nat) :
  find p s = Some i →
  starts_with p (drop i s) = true
  ∧ ∀ q, q < i → starts_with p (drop q s) = false.
Proof.
  revert i; induction s as [|c s IH]; intros i; cbn [find].
  - destruct (starts_with p []) eqn:E; [|easy].
    intros [= <-]. split; [exact E|]. intros q Hq. lia.
  - destruct (starts_with p (c :: s)) eqn:E.
    + intros [= <-]. split; [exact E|]. intros q Hq; lia.
    + destruct (find p s) as [j|] eqn:F; simpl; [|easy].
      intros [= <-]. destruct (IH j eq_refl) as [H1 H2].
      split; [exact H1|]. intros [|q] Hq; [exact E|].
      simpl. apply H2. lia.
Qed.

Lemma find_Some_intro (p s : text) (i : nat) :
  starts_with p (drop i s) = true →
  (∀ q, q < i → starts_with p (drop q s) = false) →
  find p s = Some i.
Proof.
  intros H1 H2. destruct (find p s) as [j|] eqn:F.
  - destruct (find_Some p s j F) as [G1 G2].
    destruct (Nat.lt_trichotomy i j) as [L|[->|L]]; [|reflexivity|].
    + rewrite (G2 i L) in H1. congruence.
    + rewrite (H2 j L) in G1. congruence.
  - rewrite find_None in F. rewrite F in H1. congruence.
Qed.

Lemma find_Some_split (p s : text) (i : nat) :
  0 < length p →
  find p s = Some i →
  s = take i s ++ p ++ drop (i + length p) s ∧ i + length p ≤ length s.
Proof.
  intros Hp F. destruct (find_Some p s i F) as [H _].
  pose proof (starts_with_split _ _ H) as E.
  pose proof (starts_with_length _ _ H) as Hl.
  rewrite length_drop in Hl. rewrite drop_drop in E.
  split; [|lia]. rewrite <- E. symmetry. apply take_drop.
Qed.

Lemma contains_true (p s : text) :
  contains p s = true ↔ ∃ a b, s = a ++ p ++ b.
Proof.
  unfold contains. split.
  - destruct (find p s) as [i|] eqn:F; [intros _|easy].
    destruct (find_Some p s i F) as [H _].
    exists (take i s), (drop (length p) (drop i s)).
    rewrite <- (starts_with_split _ _ H). symmetry. apply take_drop.
  - intros (a & b & ->). destruct (find p (a ++ p ++ b)) eqn:F; [reflexivity|].
    rewrite find_None in F. specialize (F (length a)).
    rewrite drop_app_length, starts_with_app in F. congruence.
Qed.

Lemma contains_false (p s : text) :
  contains p s = false ↔ ∀ q, starts_with p (drop q s) = false.
Proof.
  unfold contains. rewrite <- find_None.
  destruct (find p s); split; congruence.
Qed.

Lemma contains_middle (p a m b : text) :
  contains p m = true → contains p (a ++ m ++ b) = true.
Proof.
  rewrite !contains_true. intros (x & y & ->).
  exists (a ++ x), (y ++ b). rewrite <- !app_assoc. reflexivity.
Qed.

(** ** Literal replacement *)

Section replace.
Variables old new : text.
Hypothesis old_nonempty : 0 < length old.

Lemma replace_from_fuel (f1 f2 : nat) (s : text) :
  length s ≤ f1 → length s ≤ f2 →
  replace_from f1 old new s = replace_from f2 old new s.
Proof.
  revert f2 s; induction f1 as [|f1 IH]; intros [|f2] s H1 H2; simpl;
    try reflexivity.
  - destruct (find old s) as [i|] eqn:F; [|reflexivity].
    apply find_Some_split in F as [_ F]; [lia|assumption].
  - destruct (find old s) as [i|] eqn:F; [|reflexivity].
    apply find_Some_split in F as [_ F]; [lia|assumption].
  - destruct (find old s) as [i|] eqn:F; [|reflexivity].
    do 2 f_equal. apply find_Some_split in F as [_ F]; [|assumption].
    apply IH; rewrite length_drop; lia.
Qed.

Lemma str_replace_unfold (s : text) :
  str_replace old new s = replace_from (length s) old new s.
Proof. unfold str_replace. destruct old; [simpl in *; lia|reflexivity]. Qed.

Lemma str_replace_none (s : text) :
  find old s = None → str_replace old new s = s.
Proof.
  intros F. rewrite str_replace_unfold.
  destruct (length s); simpl; [reflexivity|]. rewrite F. reflexivity.
Qed.

Lemma str_replace_some (s : text) (i : nat) :
  find old s = Some i →
  str_replace old new s
  = take i s ++ new ++ str_replace old new (drop (i + length old) s).
Proof.
  intros F. rewrite !str_replace_unfold.
  pose proof (find_Some_split _ _ _ old_nonempty F) as [_ Hl].
  destruct (length s) as [|n] eqn:E; [lia|]. simpl. rewrite F.
  do 2 f_equal. apply replace_from_fuel; rewrite length_drop; lia.
Qed.

(** Induction along the occurrences of [old]. *)
Lemma occurrence_ind (P : text → Prop) :
  (∀ s, find old s = None → P s) →
  (∀ s i, find old s = Some i → P (drop (i + length old) s) → P s) →
  ∀ s, P s.
Proof.
  intros Hnone Hsome s.
  remember (length s) as n eqn:E. revert s E.
  induction n as [n IH] using lt_wf_ind. intros s ->.
  destruct (find old s) as [i|] eqn:F; [|auto].
  apply (Hsome s i F).
  pose proof (find_Some_split _ _ _ old_nonempty F) as [_ Hl].
  apply (IH (length (drop (i + length old) s))); [|reflexivity].
  rewrite length_drop. lia.
Qed.

Lemma str_replace_length (s : text) :
  length old ≤ length new → length s ≤ length (str_replace old new s).
Proof.
  intros Hon. induction s as [s F|s i F IH] using occurrence_ind.
  - rewrite str_replace_none by assumption. lia.
  - rewrite (str_replace_some s i F).
    pose proof (find_Some_split _ _ _ old_nonempty F) as [_ Hl].
    rewrite !length_app, length_take. rewrite length_drop in IH. lia.
Qed.

(** A longer replacement makes every substituted text longer: the test
    [new_content != content] then detects exactly the matches. *)
Lemma str_replace_grows (s : text) (i : nat) :
  length old < length new → find old s = Some i →
  length s < length (str_replace old new s).
Proof.
  intros Hon F. rewrite (str_replace_some s i F).
  pose proof (find_Some_split _ _ _ old_nonempty F) as [_ Hl].
  pose proof (str_replace_length (drop (i + length old) s)) as G.
  rewrite !length_app, length_take. rewrite length_drop in G. lia.
Qed.

(** *** Idempotence

    No occurrence of [old] survives, and none is created, when [old]
    cannot overlap [new]: no proper suffix of [old] starts [new], and
    [old] fits nowhere on a suffix of [new]. *)
Hypothesis border_old_new :
  ∀ k, 0 < k < length old → clash (drop k old) new = true.
Hypothesis inside_new :
  ∀ j, j < length new → clash old (drop j new) = true.

Lemma str_replace_clean (s : text) :
  find old (str_replace old new s) = None.
Proof.
  induction s as [s F|s i F IH] using occurrence_ind.
  - rewrite str_replace_none; assumption.
  - rewrite (str_replace_some s i F).
    set (T := str_replace old new (drop (i + length old) s)) in *.
    pose proof (find_Some_split _ _ _ old_nonempty F) as [E Hl].
    destruct (find_Some _ _ _ F) as [_ Hbefore].
    rewrite find_None in IH. apply find_None. intros q.
    assert (length (take i s) = i) as Hg by (rewrite length_take; lia).
    destruct (decide (q < i)) as [Hq|Hq].
    + (* the candidate starts before the replaced span *)
      rewrite drop_app_le by lia.
      destruct (starts_with old (drop q (take i s) ++ new ++ T)) eqn:S;
        [exfalso|reflexivity].
      apply starts_with_straddle in S as [S|[Hlen S]].
      * specialize (Hbefore q Hq). rewrite E, drop_app_le in Hbefore by lia.
        rewrite (starts_with_weaken _ _ _ S) in Hbefore. congruence.
      * rewrite length_drop, Hg in Hlen, S.
        rewrite clash_starts_with in S; [congruence|].
        apply border_old_new. lia.
    + rewrite drop_app_ge, Hg by lia.
      destruct (decide (q - i < length new)) as [Hj|Hj].
      * rewrite drop_app_le by lia.
        apply clash_starts_with, inside_new, Hj.
      * rewrite drop_app_ge by lia. apply IH.
Qed.

Lemma str_replace_idempotent (s : text) :
  str_replace old new (str_replace old new s) = str_replace old new s.
Proof. apply str_replace_none, str_replace_clean. Qed.

(** *** Every occurrence is replaced *)
Hypothesis border_old_old :
  ∀ k, 0 < k < length old → clash (drop k old) old = true.

Lemma find_after_gap (g rest : text) :
  find old g = None → find old (g ++ old ++ rest) = Some (length g).
Proof.
  intros G. rewrite find_None in G. apply find_Some_intro.
  - rewrite drop_app_length. apply starts_with_app.
  - intros q Hq. rewrite drop_app_le by lia.
    destruct (starts_with old (drop q g ++ old ++ rest)) eqn:S;
      [exfalso|reflexivity].
    apply starts_with_straddle in S as [S|[Hlen S]].
    + rewrite G in S. congruence.
    + rewrite length_drop in Hlen, S.
      rewrite clash_starts_with in S; [congruence|].
      apply border_old_old. lia.
Qed.

Lemma str_replace_gap (g rest : text) :
  find old g = None →
  str_replace old new (g ++ old ++ rest)
  = g ++ new ++ str_replace old new rest.
Proof.
  intros G. rewrite (str_replace_some _ _ (find_after_gap g rest G)).
  rewrite take_app_length. do 2 f_equal.
  rewrite drop_app_ge, drop_app_ge by (rewrite ?length_app; lia).
  replace (length g + length old - length g - length old) with 0 by lia.
  reflexivity.
Qed.

Lemma str_replace_all (gaps : list text) (last : text) :
  Forall (fun g => find old g = None) gaps →
  find old last = None →
  str_replace old new (concat ((fun g => g ++ old) <$> gaps) ++ last)
  = concat ((fun g => g ++ new) <$> gaps) ++ last.
Proof.
  intros Hg Hl. induction Hg as [|g gaps G _ IH].
  - apply str_replace_none, Hl.
  - rewrite !fmap_cons, !concat_cons, <- !app_assoc.
    rewrite str_replace_gap by assumption.
    rewrite IH. reflexivity.
Qed.

End replace.

(** ** The matcher on literal patterns *)

Lemma match_here_literal (m : bool) (p : text) (prev : option ascii) (s : text) :
  re.match_here m (re.literal p) prev s
  = if starts_with p s then Some (length p) else None.
Proof.
  revert prev s; induction p as [|c p IH]; intros prev s; [reflexivity|].
  destruct s as [|d s]; [reflexivity|].
  change (re.match_here m (re.literal (c :: p)) prev (d :: s))
    with (if Ascii.eqb c d
          then S <$> re.match_here m (re.literal p) (Some d) s else None).
  simpl. destruct (Ascii.eqb c d); [|reflexivity].
  rewrite IH. destruct (starts_with p s); reflexivity.
Qed.

Lemma search_from_literal (m : bool) (p : text) (prev : option ascii) (s : text) :
  re.search_from m (re.literal p) prev s
  = (fun i => (i, length p)) <$> find p s.
Proof.
  revert prev; induction s as [|c s IH]; intros prev;
    cbn [re.search_from find]; rewrite match_here_literal.
  - destruct (starts_with p []); reflexivity.
  - destruct (starts_with p (c :: s)); [reflexivity|].
    rewrite IH. destruct (find p s); reflexivity.
Qed.

(** The model on the examples of the library's documentation: empty
    matches, the anchors with and without [re.MULTILINE], greedy
    repetition. *)
Example sub_empty_matches :
  re.sub "x*" "-" (chars "abxd") false = Some (chars "-a-b--d-").
Proof. vm_compute. reflexivity. Qed.

Example sub_bol_multiline :
  re.sub "^a" "[\g<0>]" (chars "aa") true = Some (chars "[a]a")
  ∧ re.sub "a+b?$" "<\g<0>>" [ "a"; "b"; re.newline; "a"; "a" ]%char true
    = Some [ "<"; "a"; "b"; ">"; re.newline; "<"; "a"; "a"; ">" ]%char
  ∧ re.sub "a+b?$" "<\g<0>>" [ "a"; "b"; re.newline; "a"; "a" ]%char false
    = Some [ "a"; "b"; re.newline; "<"; "a"; "a"; ">" ]%char.
Proof. vm_compute. auto. Qed.

Example compile_outside_fragment :
  re.compile "(a|b)" = None ∧ re.compile "\d+" = None ∧ re.compile "*a" = None.
Proof. vm_compute. auto. Qed.

Lemma expand_plain (t matched : text) :
  re.expand (re.TLit <$> t) matched = t.
Proof.
  unfold re.expand. induction t as [|c t IH]; [reflexivity|].
  rewrite fmap_cons. cbn [flat_map app]. f_equal. exact IH.
Qed.

Section sub_literal.
Variables old new : text.
Variable m : bool.
Hypothesis old_nonempty : 0 < length old.

Local Abbreviation loop := (re.sub_loop m (re.literal old) (re.TLit <$> new)).

Lemma sub_loop_skip (s : text) (skip : nat) (prev : option ascii) :
  skip ≤ length s → loop skip prev s = loop 0 None (drop skip s).
Proof.
  revert skip prev; induction s as [|c s IH]; intros skip prev H.
  - simpl in H. replace skip with 0 by lia.
    cbn [re.sub_loop drop]. rewrite !match_here_literal. reflexivity.
  - destruct skip as [|k].
    + cbn [re.sub_loop drop]. rewrite !match_here_literal. reflexivity.
    + cbn [re.sub_loop drop]. apply IH. simpl in H. lia.
Qed.

Lemma sub_loop_nil : loop 0 None [] = [].
Proof.
  cbn [re.sub_loop]. rewrite match_here_literal.
  destruct old; [simpl in *; lia|reflexivity].
Qed.

Lemma sub_loop_hit (s : text) :
  starts_with old s = true →
  loop 0 None s = new ++ loop 0 None (drop (length old) s).
Proof.
  intros H. pose proof (starts_with_length _ _ H) as Hl.
  destruct s as [|c s]; [simpl in *; lia|].
  pose proof (sub_loop_skip s (length old - 1) (Some c)) as K.
  cbn [re.sub_loop]. rewrite match_here_literal, H.
  simpl in Hl. destruct (length old) as [|n] eqn:E; [lia|].
  rewrite expand_plain. f_equal.
  replace (S n - 1) with n in K by lia. apply K. lia.
Qed.

Lemma sub_loop_miss (c : ascii) (s : text) :
  starts_with old (c :: s) = false →
  loop 0 None (c :: s) = c :: loop 0 None s.
Proof.
  intros H. cbn [re.sub_loop]. rewrite match_here_literal, H.
  f_equal. apply (sub_loop_skip s 0). lia.
Qed.

Lemma sub_loop_none (s : text) : find old s = None → loop 0 None s = s.
Proof.
  induction s as [|c s IH]; intros F; [apply sub_loop_nil|].
  cbn [find] in F. destruct (starts_with old (c :: s)) eqn:E; [easy|].
  rewrite sub_loop_miss by assumption. f_equal. apply IH.
  destruct (find old s); [easy|reflexivity].
Qed.

Lemma sub_loop_some (s : text) (i : nat) :
  find old s = Some i →
  loop 0 None s = take i s ++ new ++ loop 0 None (drop (i + length old) s).
Proof.
  revert i; induction s as [|c s IH]; intros i F; cbn [find] in F.
  - destruct (starts_with old []) eqn:E; [|easy].
    apply starts_with_length in E. simpl in E. lia.
  - destruct (starts_with old (c :: s)) eqn:E.
    + injection F as <-. apply sub_loop_hit, E.
    + destruct (find old s) as [j|] eqn:G; [|easy]. injection F as <-.
      rewrite sub_loop_miss by assumption. rewrite (IH j eq_refl).
      reflexivity.
Qed.

(** On a literal pattern and a template without escapes the loop of
    [re.sub] is [str.replace]. *)
Lemma sub_loop_replace (s : text) : loop 0 None s = str_replace old new s.
Proof.
  induction s as [s F|s i F IH] using (occurrence_ind old old_nonempty).
  - rewrite sub_loop_none, str_replace_none; auto.
  - rewrite (sub_loop_some s i F), (str_replace_some old new old_nonempty s i F).
    rewrite IH. reflexivity.
Qed.

End sub_literal.

(** ** The pattern and the replacement of the script *)

Lemma compile_old_pattern :
  re.compile old_pattern = Some (re.literal old_text).
Proof. vm_compute. reflexivity. Qed.

Lemma template_new_code :
  re.parse_template (chars new_code) = Some (re.TLit <$> new_text).
Proof. vm_compute. reflexivity. Qed.

Lemma old_text_length : length old_text = 228.
Proof. vm_compute. reflexivity. Qed.

Lemma new_text_length : length new_text = 652.
Proof. vm_compute. reflexivity. Qed.

Lemma old_text_nonempty : 0 < length old_text.
Proof. rewrite old_text_length. lia. Qed.

Lemma all_below (n : nat) (P : nat → bool) :
  forallb P (seq 0 n) = true → ∀ k, k < n → P k = true.
Proof.
  intros H k Hk. rewrite forallb_forall in H. apply H, in_seq. lia.
Qed.

Lemma old_new_border :
  ∀ k, 0 < k < length old_text → clash (drop k old_text) new_text = true.
Proof.
  intros k [Hk Hl].
  apply (all_below (length old_text)
           (fun k => Nat.eqb k 0 || clash (drop k old_text) new_text)) in Hl.
  - destruct k; [lia|exact Hl].
  - vm_compute. reflexivity.
Qed.

Lemma old_old_border :
  ∀ k, 0 < k < length old_text → clash (drop k old_text) old_text = true.
Proof.
  intros k [Hk Hl].
  apply (all_below (length old_text)
           (fun k => Nat.eqb k 0 || clash (drop k old_text) old_text)) in Hl.
  - destruct k; [lia|exact Hl].
  - vm_compute. reflexivity.
Qed.

Lemma old_not_in_new :
  ∀ j, j < length new_text → clash old_text (drop j new_text) = true.
Proof.
  intros j Hj.
  apply (all_below (length new_text)
           (fun j => clash old_text (drop j new_text))); [|exact Hj].
  vm_compute. reflexivity.
Qed.

Lemma new_has_signature : contains (chars signature) new_text = true.
Proof. vm_compute. reflexivity. Qed.

Lemma new_has_marker : contains (chars patched_marker) new_text = true.
Proof. vm_compute. reflexivity. Qed.

Lemma re_sub_replace (s : text) (m : bool) :
  re.sub old_pattern new_code s m = Some (str_replace old_text new_text s).
Proof.
  unfold re.sub. rewrite compile_old_pattern, template_new_code.
  cbn [mbind option_bind]. f_equal.
  apply sub_loop_replace, old_text_nonempty.
Qed.

Lemma re_search_find (s : text) (m : bool) :
  re.search old_pattern s m
  = Some ((fun i => (i, length old_text)) <$> find old_text s).
Proof.
  unfold re.search. rewrite compile_old_pattern.
  cbn [mbind option_bind]. f_equal. apply search_from_literal.
Qed.

Lemma patched_differs (s : text) (i : nat) :
  find old_text s = Some i → str_replace old_text new_text s ≠ s.
Proof.
  intros F E.
  pose proof (str_replace_grows old_text new_text old_text_nonempty s i) as G.
  rewrite old_text_length, new_text_length, E in G.
  specialize (G ltac:(lia) F). lia.
Qed.

(** ** One run, by cases

    What a run does on a target that can be read: the three outcomes of
    the script and the exception of a refused write. *)

Lemma run_readable (files : gmap string file) (f : file) (content : text) :
  files !! target_path = Some f → can_read f = true → body f = Some content →
  run files =
    match find old_text content with
    | None =>
        (inr (), {| fs := files; stdout := report content; written := [] |})
    | Some _ =>
        let new_content := str_replace old_text new_text content in
        if can_write f then
          (inr (),
           {| fs := <[target_path := plain new_content]> files;
              stdout := [msg_fixed];
              written := [(target_path, new_content)] |})
        else (inl PermissionError, boot files)
    end.
Proof.
  intros Hf Hr Hb. destruct f as [r w b]. simpl in Hr, Hb. subst r b.
  unfold run, main, re_sub.
  cbv [mbind M_bind read_text boot fs]. rewrite Hf. cbv [can_read body].
  rewrite re_sub_replace. cbv [mret M_ret].
  destruct (find old_text content) as [i|] eqn:F.
  - pose proof (patched_differs content i F) as D.
    apply text_eqb_neq in D. rewrite D. cbv [negb].
    cbv [write_text fs stdout written can_write can_read]. rewrite Hf.
    destruct w; reflexivity.
  - rewrite (str_replace_none old_text new_text old_text_nonempty content F).
    assert (text_eqb content content = true) as -> by (apply text_eqb_eq; reflexivity).
    cbv [negb print stdout fs written report].
    destruct (contains (chars signature) content); [|reflexivity].
    destruct (contains (chars patched_marker) content); reflexivity.
Qed.

(** A refused write ends the run with the exception, before the success
    line. *)
Lemma refused_write_raises (files : gmap string file) (f : file)
    (content : text) (i : nat) :
  files !! target_path = Some f → can_read f = true → body f = Some content →
  find old_text content = Some i → can_write f = false →
  run files = (inl PermissionError, boot files).
Proof.
  intros Hf Hr Hb F Hw.
  rewrite (run_readable files f content Hf Hr Hb), F, Hw. reflexivity.
Qed.

Lemma run_unreadable (files : gmap string file) (e : exn) :
  (read_text target_path (boot files)).1 = inl e →
  run files = (inl e, boot files).
Proof.
  unfold run, main. cbv [mbind M_bind].
  unfold read_text. cbn [fs boot].
  destruct (files !! target_path) as [[r w [t|]]|]; cbn [can_read body fst];
    try destruct r; cbn [fst]; try congruence; intros [= <-]; reflexivity.
Qed.

Lemma read_text_cases (files : gmap string file) :
  (∃ f content, files !! target_path = Some f ∧ can_read f = true
                ∧ body f = Some content)
  ∨ (∃ e, (read_text target_path (boot files)).1 = inl e
          ∧ e ∈ [FileNotFoundError; PermissionError; UnicodeDecodeError]).
Proof.
  unfold read_text. cbn [fs boot].
  destruct (files !! target_path) as [[[] w [t|]]|]; cbn [can_read body fst].
  - left. eauto.
  - right. eexists. split; [reflexivity|]. set_solver.
  - right. eexists. split; [reflexivity|]. set_solver.
  - right. eexists. split; [reflexivity|]. set_solver.
  - right. eexists. split; [reflexivity|]. set_solver.
Qed.

Lemma report_has_no_success (content : text) : msg_fixed ∉ report content.
Proof.
  unfold report.
  destruct (contains (chars signature) content);
    [destruct (contains (chars patched_marker) content)|];
    intros H; repeat (apply elem_of_cons in H as [H|H]; [discriminate H|]);
    apply elem_of_nil in H; exact H.
Qed.

Lemma search_none_find (content : text) (m : bool) :
  re.search old_pattern content m = Some None ↔ find old_text content = None.
Proof.
  rewrite re_search_find. destruct (find old_text content); simpl;
    split; congruence.
Qed.

Lemma search_some_find (content : text) (m : bool) (i n : nat) :
  re.search old_pattern content m = Some (Some (i, n))
  ↔ find old_text content = Some i ∧ n = length old_text.
Proof.
  rewrite re_search_find. destruct (find old_text content); simpl; split.
  - intros [= -> <-]. auto.
  - intros [[= ->] ->]. reflexivity.
  - congruence.
  - intros [[=] _].
Qed.

(** ** The claims of the specification *)

(** Claim C1.  On a target that can be read and written, whenever the
    pattern matches, the new content is the old one with the matched span
    replaced by the replacement block (and the rest substituted in turn),
    the target path is overwritten with it and the only line printed is
    the success line; the write and the success line occur exactly when
    the substituted content differs from the original. *)
Theorem match_is_written (files : gmap string file) (f : file) (content : text) :
  files !! target_path = Some f →
  can_read f = true → can_write f = true → body f = Some content →
  ∃ new_content,
    re.sub old_pattern new_code content true = Some new_content
    ∧ (∀ i n, re.search old_pattern content true = Some (Some (i, n)) →
         ∃ rest,
           re.sub old_pattern new_code (drop (i + n) content) true = Some rest
           ∧ new_content = take i content ++ chars new_code ++ rest
           ∧ run files =
               (inr (),
                {| fs := <[target_path := plain new_content]> files;
                   stdout := [msg_fixed];
                   written := [(target_path, new_content)] |}))
    ∧ (new_content ≠ content
       ↔ written (run files).2 = [(target_path, new_content)])
    ∧ (new_content ≠ content ↔ msg_fixed ∈ stdout (run files).2)
    ∧ (new_content = content
       → written (run files).2 = [] ∧ fs (run files).2 = files).
Proof.
  intros Hf Hr Hw Hb. exists (str_replace old_text new_text content).
  pose proof (run_readable files f content Hf Hr Hb) as R. rewrite Hw in R.
  split; [apply re_sub_replace|].
  destruct (find old_text content) as [j|] eqn:F.
  - pose proof (patched_differs content j F) as D. cbv zeta in R. rewrite R.
    cbn [snd written stdout fs]. repeat split; try easy.
    + intros i n [F' ->]%search_some_find. rewrite F in F'. injection F' as ->.
      eexists. split; [apply re_sub_replace|]. split; [|reflexivity].
      apply (str_replace_some old_text new_text old_text_nonempty), F.
    + intros _. set_solver.
  - rewrite (str_replace_none old_text new_text old_text_nonempty content F) in *.
    rewrite R. cbn [snd written stdout fs]. repeat split; try easy.
    + intros i n [F' _]%search_some_find. congruence.
    + intros H. exfalso. exact (report_has_no_success content H).
Qed.

Lemma match_is_written_witness :
  let files : gmap string file := {[ target_path := plain old_text ]} in
  files !! target_path = Some (plain old_text)
  ∧ re.search old_pattern old_text true = Some (Some (0, 228))
  ∧ run files =
      (inr (),
       {| fs := <[target_path := plain new_text]> files;
          stdout := [msg_fixed];
          written := [(target_path, new_text)] |}).
Proof.
  intros files.
  assert (files !! target_path = Some (plain old_text)) as Hf by reflexivity.
  assert (re.search old_pattern old_text true = Some (Some (0, 228))) as Hs
    by (vm_compute; reflexivity).
  split; [exact Hf|]. split; [exact Hs|].
  destruct (match_is_written files (plain old_text) old_text Hf eq_refl eq_refl eq_refl)
    as (nc & Hsub & Hm & _).
  destruct (Hm 0 228 Hs) as (rest & _ & _ & Hrun).
  assert (nc = new_text) as <-; [|exact Hrun].
  assert (re.sub old_pattern new_code old_text true = Some new_text) as E
    by (vm_compute; reflexivity).
  congruence.
Defined.

(** Claim C2.  When the pattern does not match, the substituted text is
    the source text, nothing is written and the file system is left as it
    was. *)
Theorem no_match_no_write (files : gmap string file) (f : file) (content : text) :
  files !! target_path = Some f →
  can_read f = true → body f = Some content →
  re.search old_pattern content true = Some None →
  re.sub old_pattern new_code content true = Some content
  ∧ written (run files).2 = []
  ∧ fs (run files).2 = files.
Proof.
  intros Hf Hr Hb F%search_none_find.
  rewrite re_sub_replace, (run_readable files f content Hf Hr Hb), F.
  rewrite (str_replace_none old_text new_text old_text_nonempty content F).
  auto.
Qed.

Lemma no_match_no_write_witness :
  let content := chars "export const x = 1;" in
  let files : gmap string file := {[ target_path := plain content ]} in
  re.search old_pattern content true = Some None
  ∧ re.sub old_pattern new_code content true = Some content
  ∧ written (run files).2 = []
  ∧ fs (run files).2 = files.
Proof.
  intros content files.
  assert (re.search old_pattern content true = Some None) as Hs
    by (vm_compute; reflexivity).
  split; [exact Hs|].
  apply (no_match_no_write files (plain content) content);
    [reflexivity|reflexivity|reflexivity|exact Hs].
Defined.

(** Claim C3.  The patch is idempotent: after a run that matched and
    wrote, the pattern no longer matches the file, and a second run on the
    resulting file system substitutes nothing, writes nothing, finds the
    marker of the patched form and reports that the file is already
    patched. *)
Theorem second_run_reports_patched
    (files : gmap string file) (f : file) (content : text) (span : nat * nat) :
  files !! target_path = Some f →
  can_read f = true → can_write f = true → body f = Some content →
  re.search old_pattern content true = Some (Some span) →
  ∃ patched,
    target_text (run files).2 = Some patched
    ∧ written (run files).2 = [(target_path, patched)]
    ∧ re.search old_pattern patched true = Some None
    ∧ re.sub old_pattern new_code patched true = Some patched
    ∧ contains (chars patched_marker) patched = true
    ∧ run (fs (run files).2) =
        (inr (),
         {| fs := fs (run files).2;
            stdout := [msg_not_found; msg_found; msg_already];
            written := [] |}).
Proof.
  intros Hf Hr Hw Hb Hs. destruct span as [i n].
  apply search_some_find in Hs as [F ->].
  pose proof (run_readable files f content Hf Hr Hb) as R.
  rewrite F, Hw in R. cbv zeta in R. rewrite R. cbn [snd fs written].
  set (patched := str_replace old_text new_text content).
  assert (find old_text patched = None) as Clean.
  { apply str_replace_clean;
      auto using old_text_nonempty, old_new_border, old_not_in_new. }
  assert (∀ p, contains p new_text = true → contains p patched = true) as Keeps.
  { intros p Hp. unfold patched.
    rewrite (str_replace_some old_text new_text old_text_nonempty content i F).
    apply contains_middle, Hp. }
  exists patched. unfold target_text. cbn [fs].
  rewrite lookup_insert_eq. cbn [mbind option_bind body plain].
  repeat split.
  - apply search_none_find, Clean.
  - rewrite re_sub_replace. f_equal.
    apply str_replace_none; auto using old_text_nonempty.
  - apply Keeps, new_has_marker.
  - rewrite (run_readable _ (plain patched) patched);
      [|apply lookup_insert_eq|reflexivity|reflexivity].
    rewrite Clean. unfold report.
    rewrite (Keeps _ new_has_signature), (Keeps _ new_has_marker). reflexivity.
Qed.

Lemma second_run_reports_patched_witness :
  let content := chars "// layers" ++ old_text ++ chars "// end" in
  let files : gmap string file := {[ target_path := plain content ]} in
  re.search old_pattern content true = Some (Some (9, 228))
  ∧ ∃ patched,
      target_text (run files).2 = Some patched
      ∧ written (run files).2 = [(target_path, patched)]
      ∧ re.search old_pattern patched true = Some None
      ∧ re.sub old_pattern new_code patched true = Some patched
      ∧ contains (chars patched_marker) patched = true
      ∧ run (fs (run files).2) =
          (inr (),
           {| fs := fs (run files).2;
              stdout := [msg_not_found; msg_found; msg_already];
              written := [] |}).
Proof.
  intros content files.
  assert (re.search old_pattern content true = Some (Some (9, 228))) as Hs
    by (vm_compute; reflexivity).
  split; [exact Hs|].
  apply (second_run_reports_patched files (plain content) content (9, 228));
    [reflexivity|reflexivity|reflexivity|reflexivity|exact Hs].
Defined.

(** Claim C4.  When the signature of [updateLayer] is in the file but the
    pattern does not match and the marker of the patched form is absent,
    the file is left as it was, nothing is written, and the run ends on
    the line asking for manual intervention. *)
Theorem unmatched_signature_needs_manual
    (files : gmap string file) (f : file) (content : text) :
  files !! target_path = Some f →
  can_read f = true → body f = Some content →
  contains (chars signature) content = true →
  re.search old_pattern content true = Some None →
  contains (chars patched_marker) content = false →
  run files =
    (inr (),
     {| fs := files;
        stdout := [msg_not_found; msg_found; msg_manual];
        written := [] |}).
Proof.
  intros Hf Hr Hb Hsig F%search_none_find Hmark.
  rewrite (run_readable files f content Hf Hr Hb), F.
  unfold report. rewrite Hsig, Hmark. reflexivity.
Qed.

Lemma unmatched_signature_needs_manual_witness :
  let content :=
    chars "const updateLayer = useCallback((id: string, updates: Partial<Layer>) =>  {" in
  let files : gmap string file := {[ target_path := plain content ]} in
  contains (chars signature) content = true
  ∧ re.search old_pattern content true = Some None
  ∧ contains (chars patched_marker) content = false
  ∧ run files =
      (inr (),
       {| fs := files;
          stdout := [msg_not_found; msg_found; msg_manual];
          written := [] |}).
Proof.
  intros content files.
  assert (contains (chars signature) content = true) as H1
    by (vm_compute; reflexivity).
  assert (re.search old_pattern content true = Some None) as H2
    by (vm_compute; reflexivity).
  assert (contains (chars patched_marker) content = false) as H3
    by (vm_compute; reflexivity).
  repeat (split; [assumption|]).
  apply (unmatched_signature_needs_manual files (plain content) content);
    [reflexivity|reflexivity|reflexivity|exact H1|exact H2|exact H3].
Defined.

(** Claim C5, as stated, fails: the marker is only looked for once the
    signature has been found.  On a file that holds the marker and not the
    signature nothing is substituted and the only line printed is the
    not-found line. *)
Lemma marker_without_signature_unreported :
  let content := chars "const newUpdates = updates.canvas" in
  let files : gmap string file := {[ target_path := plain content ]} in
  re.sub old_pattern new_code content true = Some content
  ∧ contains (chars patched_marker) content = true
  ∧ contains (chars signature) content = false
  ∧ stdout (run files).2 = [msg_not_found]
  ∧ (msg_already ∉ stdout (run files).2).
Proof.
  intros content files.
  assert (stdout (run files).2 = [msg_not_found]) as E
    by (vm_compute; reflexivity).
  split; [vm_compute; reflexivity|].
  split; [vm_compute; reflexivity|].
  split; [vm_compute; reflexivity|].
  split; [exact E|].
  rewrite E. intros [H|H]%elem_of_cons; [discriminate H|].
  apply elem_of_nil in H. exact H.
Qed.

(** Claim C5, amended.  When nothing was substituted and the marker of
    the patched form is in the file, the run reports "already patched" if
    the signature of [updateLayer] is in the file too; if the signature is
    absent, the not-found line is all that is printed. *)
Theorem marker_reported_under_signature
    (files : gmap string file) (f : file) (content : text) :
  files !! target_path = Some f →
  can_read f = true → body f = Some content →
  re.sub old_pattern new_code content true = Some content →
  contains (chars patched_marker) content = true →
  (contains (chars signature) content = true →
     stdout (run files).2 = [msg_not_found; msg_found; msg_already])
  ∧ (contains (chars signature) content = false →
     stdout (run files).2 = [msg_not_found]).
Proof.
  intros Hf Hr Hb Hsub Hmark.
  rewrite re_sub_replace in Hsub. injection Hsub as Hsub.
  rewrite (run_readable files f content Hf Hr Hb).
  destruct (find old_text content) as [i|] eqn:F.
  - destruct (patched_differs content i F Hsub).
  - cbn [snd stdout]. unfold report. rewrite Hmark.
    split; intros ->; reflexivity.
Qed.

Lemma marker_reported_under_signature_witness :
  let files : gmap string file := {[ target_path := plain new_text ]} in
  re.sub old_pattern new_code new_text true = Some new_text
  ∧ contains (chars signature) new_text = true
  ∧ stdout (run files).2 = [msg_not_found; msg_found; msg_already].
Proof.
  intros files.
  assert (re.sub old_pattern new_code new_text true = Some new_text) as H1
    by (vm_compute; reflexivity).
  assert (contains (chars signature) new_text = true) as H2
    by (vm_compute; reflexivity).
  assert (contains (chars patched_marker) new_text = true) as H3
    by (vm_compute; reflexivity).
  split; [exact H1|]. split; [exact H2|].
  apply (marker_reported_under_signature files (plain new_text) new_text);
    [reflexivity|reflexivity|reflexivity|exact H1|exact H3|exact H2].
Defined.

(** Claim C7, as stated, fails: besides the three lines it names, the
    fallback diagnostics print the line that the function was found and
    the line that asks for manual intervention. *)
Lemma two_more_status_lines :
  let files : gmap string file := {[ target_path := plain (chars signature) ]} in
  stdout (run files).2 = [msg_not_found; msg_found; msg_manual]
  ∧ (msg_found ∉ [msg_fixed; msg_not_found; msg_already])
  ∧ (msg_manual ∉ [msg_fixed; msg_not_found; msg_already]).
Proof.
  intros files. split; [vm_compute; reflexivity|].
  split; intros H;
    repeat (apply elem_of_cons in H as [H|H]; [discriminate H|]);
    apply elem_of_nil in H; exact H.
Qed.

(** Claim C7, amended.  The output of a run consists only of status
    lines drawn from five: success, not found, function found, already
    patched and manual intervention needed; more precisely it is one of
    five sequences of them, the empty one being that of a run that an
    exception ended. *)
Theorem status_lines_only (files : gmap string file) :
  Forall (fun line => line ∈ status_lines) (stdout (run files).2)
  ∧ stdout (run files).2 ∈
      [ []; [msg_fixed]; [msg_not_found];
        [msg_not_found; msg_found; msg_already];
        [msg_not_found; msg_found; msg_manual] ].
Proof.
  assert (stdout (run files).2 ∈
      [ []; [msg_fixed]; [msg_not_found];
        [msg_not_found; msg_found; msg_already];
        [msg_not_found; msg_found; msg_manual] ]) as H.
  { destruct (read_text_cases files) as [(f & content & Hf & Hr & Hb)|(e & He & _)].
    - rewrite (run_readable files f content Hf Hr Hb).
      destruct (find old_text content).
      + cbv zeta. destruct (can_write f); cbn [snd stdout boot]; set_solver.
      + cbn [snd stdout]. unfold report.
        destruct (contains (chars signature) content);
          [destruct (contains (chars patched_marker) content)|]; set_solver.
    - rewrite (run_unreadable files e He). cbn [snd stdout boot]. set_solver. }
  split; [|exact H].
  unfold status_lines.
  repeat (apply elem_of_cons in H as [->|H]);
    try (apply elem_of_nil in H; contradiction);
    repeat constructor; set_solver.
Qed.

(** Claim C8.  When reading the target fails, for a missing file, a file
    that may not be read or one that is not UTF-8, the exception ends the
    run at once: the world is the initial one, with no file changed,
    nothing written and nothing printed. *)
Theorem read_failure_aborts (files : gmap string file) (e : exn) :
  (read_text target_path (boot files)).1 = inl e →
  run files = (inl e, boot files)
  ∧ fs (run files).2 = files
  ∧ written (run files).2 = []
  ∧ stdout (run files).2 = [].
Proof.
  intros He. rewrite (run_unreadable files e He). auto.
Qed.

Lemma read_failure_aborts_witness :
  let missing : gmap string file := ∅ in
  let locked : gmap string file :=
    {[ target_path :=
         {| can_read := false; can_write := true; body := Some old_text |} ]} in
  let garbled : gmap string file :=
    {[ target_path := {| can_read := true; can_write := true; body := None |} ]} in
  run missing = (inl FileNotFoundError, boot missing)
  ∧ run locked = (inl PermissionError, boot locked)
  ∧ run garbled = (inl UnicodeDecodeError, boot garbled).
Proof.
  intros missing locked garbled.
  split; [|split].
  - apply (read_failure_aborts missing FileNotFoundError). reflexivity.
  - apply (read_failure_aborts locked PermissionError). reflexivity.
  - apply (read_failure_aborts garbled UnicodeDecodeError). reflexivity.
Defined.

(** Claim C9.  The pattern compiles to the characters of the original
    fragment in sequence, so that, with or without [re.MULTILINE], it
    matches a text exactly when the fragment occurs in it as a contiguous
    substring, the leftmost match being the leftmost occurrence, and
    [re.sub] is the literal [str.replace] of the fragment by the
    replacement. *)
Theorem regex_is_literal (s : text) (multiline : bool) :
  re.compile old_pattern = Some (re.literal (chars old_fragment))
  ∧ re.search old_pattern s multiline
    = Some ((fun i => (i, length (chars old_fragment)))
              <$> find (chars old_fragment) s)
  ∧ ((∃ span, re.search old_pattern s multiline = Some (Some span))
     ↔ ∃ before after, s = before ++ chars old_fragment ++ after)
  ∧ re.sub old_pattern new_code s multiline
    = Some (str_replace (chars old_fragment) (chars new_code) s).
Proof.
  split; [exact compile_old_pattern|].
  split; [apply re_search_find|].
  split; [|apply re_sub_replace].
  rewrite <- contains_true. unfold contains. rewrite re_search_find.
  fold old_text. destruct (find old_text s); simpl; split; eauto.
  - intros [span [=]].
  - discriminate.
Qed.

(** Claim C10.  A single run replaces every occurrence of the fragment,
    not only the first: on a target whose text is made of one or more
    occurrences, each after a stretch that holds none, the run writes to
    the target the text in which every one of them is the replacement
    block and the stretches are as they were; that text is what [re.sub]
    returns, and the fragment occurs in it no more. *)
Theorem every_occurrence_replaced
    (files : gmap string file) (f : file)
    (gap : text) (gaps : list text) (last : text) :
  files !! target_path = Some f →
  can_read f = true → can_write f = true →
  body f = Some (concat ((fun g => g ++ old_text) <$> gap :: gaps) ++ last) →
  Forall (fun g => contains old_text g = false) (gap :: gaps) →
  contains old_text last = false →
  run files =
    (inr (),
     {| fs := <[target_path :=
                  plain (concat ((fun g => g ++ new_text) <$> gap :: gaps)
                         ++ last)]> files;
        stdout := [msg_fixed];
        written :=
          [(target_path,
            concat ((fun g => g ++ new_text) <$> gap :: gaps) ++ last)] |})
  ∧ target_text (run files).2
    = Some (concat ((fun g => g ++ new_text) <$> gap :: gaps) ++ last)
  ∧ re.sub old_pattern new_code
      (concat ((fun g => g ++ old_text) <$> gap :: gaps) ++ last) true
    = Some (concat ((fun g => g ++ new_text) <$> gap :: gaps) ++ last)
  ∧ contains old_text
      (concat ((fun g => g ++ new_text) <$> gap :: gaps) ++ last) = false.
Proof.
  intros Hf Hr Hw Hb Hg Hl.
  assert (∀ t, contains old_text t = false → find old_text t = None) as K.
  { intros t. unfold contains. destruct (find old_text t); congruence. }
  set (content := concat ((fun g => g ++ old_text) <$> gap :: gaps) ++ last) in *.
  set (patched := concat ((fun g => g ++ new_text) <$> gap :: gaps) ++ last).
  assert (str_replace old_text new_text content = patched) as E.
  { apply str_replace_all; auto using old_text_nonempty, old_old_border.
    eapply Forall_impl; [exact Hg|]. exact K. }
  assert (find old_text content = Some (length gap)) as F.
  { unfold content. rewrite fmap_cons, concat_cons, <- !app_assoc.
    apply find_after_gap; auto using old_text_nonempty, old_old_border.
    apply K. inversion Hg; assumption. }
  pose proof (run_readable files f content Hf Hr Hb) as R.
  rewrite F, Hw in R. cbv zeta in R. rewrite E in R. rewrite R.
  split; [reflexivity|]. split; [|split].
  - unfold target_text. cbn [snd fs]. rewrite lookup_insert_eq. reflexivity.
  - rewrite re_sub_replace, E. reflexivity.
  - rewrite <- E. unfold contains.
    rewrite str_replace_clean;
      auto using old_text_nonempty, old_new_border, old_not_in_new.
Qed.

Lemma every_occurrence_replaced_witness :
  let content :=
    chars "a" ++ old_text ++ chars "b" ++ old_text ++ chars "c" ++ old_text
      ++ chars "d" in
  let patched :=
    chars "a" ++ new_text ++ chars "b" ++ new_text ++ chars "c" ++ new_text
      ++ chars "d" in
  let files : gmap string file := {[ target_path := plain content ]} in
  run files =
    (inr (),
     {| fs := <[target_path := plain patched]> files;
        stdout := [msg_fixed];
        written := [(target_path, patched)] |})
  ∧ target_text (run files).2 = Some patched.
Proof.
  intros content patched files.
  destruct (every_occurrence_replaced files (plain content)
              (chars "a") [chars "b"; chars "c"] (chars "d"))
    as (H1 & H2 & _).
  - reflexivity.
  - reflexivity.
  - reflexivity.
  - unfold content. rewrite !fmap_cons, fmap_nil, !concat_cons, concat_nil.
    rewrite <- !app_assoc. reflexivity.
  - repeat constructor.
  - reflexivity.
  - rewrite !fmap_cons, fmap_nil, !concat_cons, concat_nil in H1, H2.
    rewrite <- !app_assoc in H1, H2. split; [exact H1|exact H2].
Defined.

(** ** The installed callback *)

Lemma get_absent (o : gmap string js.value) (k : string) :
  o !! k = None → js.get o k = js.Undefined.
Proof. unfold js.get. intros ->. reflexivity. Qed.

Lemma get_present (o : gmap string js.value) (k : string) (v : js.value) :
  js.get o k = v → v ≠ js.Undefined → o !! k = Some v.
Proof.
  unfold js.get. destruct (o !! k); simpl; intros <- H; congruence.
Qed.

Lemma update_one_same_id (id : js.value) (updates layer : gmap string js.value) :
  js.get layer "id" = id →
  js.update_one id updates layer
  = nu ← js.newUpdates updates layer; Some (nu ∪ layer).
Proof.
  intros <-. unfold js.update_one, js.strict_ne.
  rewrite bool_decide_eq_true_2 by reflexivity. reflexivity.
Qed.

Lemma exact_spec (n : Z) :
  js.exact n = true ↔ (- 9007199254740992 ≤ n ≤ 9007199254740992)%Z.
Proof.
  unfold js.exact. change (2 ^ 53)%Z with 9007199254740992%Z.
  rewrite andb_true_iff, !Z.leb_le. reflexivity.
Qed.

Lemma add_exact (x y : Z) :
  js.exact x = true → js.exact y = true → js.exact (x + y) = true →
  js.add (js.Num x) (js.Num y) = Some (js.Num (x + y)).
Proof.
  intros Hx Hy Hs. unfold js.add. cbn [js.is_string orb js.to_number].
  rewrite Hx, Hy. cbn [mbind option_bind]. rewrite Hs. reflexivity.
Qed.

(** [(v || 0) + 1] on a number whose successor is exact. *)
Lemma increment_number (n : Z) :
  (- 2 ^ 53 ≤ n < 2 ^ 53)%Z →
  js.add (js.or (js.Num n) (js.Num 0)) (js.Num 1) = Some (js.Num (n + 1)).
Proof.
  change (2 ^ 53)%Z with 9007199254740992%Z. intros Hn.
  unfold js.or, js.truthy.
  destruct (Z.eqb_spec n 0) as [->|H0]; cbn [negb].
  - reflexivity.
  - apply add_exact; apply exact_spec; lia.
Qed.

(** [(v || 0) + 1] on a missing or falsy value. *)
Lemma increment_falsy (v : js.value) :
  js.truthy v = false →
  js.add (js.or v (js.Num 0)) (js.Num 1) = Some (js.Num 1).
Proof. intros H. unfold js.or. rewrite H. reflexivity. Qed.

(** Claim C6.  In the installed callback, for the layer whose id is the
    one given: when the update carries a canvas (a truthy [canvas]), the
    merged layer has the version the update provides, if it provides one,
    and otherwise the prior version of the layer plus one, a missing or
    falsy prior version counting as zero; when the update carries no
    canvas (a missing or falsy [canvas]), the update is merged as it is
    and no version is added to it.  Versions are integers that doubles
    add exactly. *)
Theorem canvas_update_bumps_version
    (id : js.value) (updates layer : gmap string js.value) :
  js.get layer "id" = id →
  (js.truthy (js.get updates "canvas") = true →
     (∀ v, js.get updates "version" = v → v ≠ js.Undefined → v ≠ js.Null →
        js.newUpdates updates layer = Some updates
        ∧ ∃ merged, js.update_one id updates layer = Some merged
                    ∧ merged !! "version" = Some v)
     ∧ (∀ p, js.get updates "version" = js.Undefined
             ∨ js.get updates "version" = js.Null →
             js.get layer "version" = js.Num p →
             (- 2 ^ 53 ≤ p < 2 ^ 53)%Z →
        js.newUpdates updates layer
        = Some (<["version" := js.Num (p + 1)]> updates)
        ∧ ∃ merged, js.update_one id updates layer = Some merged
                    ∧ merged !! "version" = Some (js.Num (p + 1)))
     ∧ (js.get updates "version" = js.Undefined
        ∨ js.get updates "version" = js.Null →
        js.truthy (js.get layer "version") = false →
        js.newUpdates updates layer = Some (<["version" := js.Num 1]> updates)
        ∧ ∃ merged, js.update_one id updates layer = Some merged
                    ∧ merged !! "version" = Some (js.Num 1)))
  ∧ (js.truthy (js.get updates "canvas") = false →
     js.newUpdates updates layer = Some updates
     ∧ js.update_one id updates layer = Some (updates ∪ layer)
     ∧ (updates !! "version" = None →
        (updates ∪ layer) !! "version" = layer !! "version")).
Proof.
  intros Hid. rewrite (update_one_same_id id updates layer Hid).
  split.
  - intros Hc. unfold js.newUpdates. rewrite Hc.
    split; [|split].
    + intros v Hv Hu Hn. pose proof (get_present _ _ _ Hv Hu) as Hl.
      rewrite Hv.
      assert (js.coalesce v (js.add (js.or (js.get layer "version") (js.Num 0))
                               (js.Num 1)) = Some v) as ->
        by (destruct v; simpl; congruence).
      cbn [mbind option_bind]. rewrite (insert_id _ _ _ Hl).
      split; [reflexivity|]. eexists. split; [reflexivity|].
      apply lookup_union_Some_l, Hl.
    + intros p Hv Hp Hrange.
      assert (js.coalesce (js.get updates "version")
                (js.add (js.or (js.get layer "version") (js.Num 0)) (js.Num 1))
              = Some (js.Num (p + 1))) as ->.
      { rewrite Hp, (increment_number p Hrange).
        destruct Hv as [-> | ->]; reflexivity. }
      cbn [mbind option_bind]. split; [reflexivity|].
      eexists. split; [reflexivity|].
      apply lookup_union_Some_l, lookup_insert_eq.
    + intros Hv Hfalsy.
      assert (js.coalesce (js.get updates "version")
                (js.add (js.or (js.get layer "version") (js.Num 0)) (js.Num 1))
              = Some (js.Num 1)) as ->.
      { rewrite (increment_falsy _ Hfalsy).
        destruct Hv as [-> | ->]; reflexivity. }
      cbn [mbind option_bind]. split; [reflexivity|].
      eexists. split; [reflexivity|].
      apply lookup_union_Some_l, lookup_insert_eq.
  - intros Hc. unfold js.newUpdates.
    rewrite Hc. cbn [mbind option_bind].
    split; [reflexivity|]. split; [reflexivity|].
    intros Hv. apply lookup_union_r, Hv.
Qed.

Lemma canvas_update_bumps_version_witness :
  let layer : gmap string js.value :=
    {[ "id" := js.Str "background"; "version" := js.Num 3 ]} in
  let updates : gmap string js.value := {[ "canvas" := js.Ref 7 ]} in
  let erasing : gmap string js.value := {[ "canvas" := js.Null ]} in
  js.get layer "id" = js.Str "background"
  ∧ (∃ merged, js.update_one (js.Str "background") updates layer = Some merged
               ∧ merged !! "version" = Some (js.Num 4))
  ∧ js.update_one (js.Str "background") erasing layer = Some (erasing ∪ layer)
  ∧ (erasing ∪ layer) !! "version" = Some (js.Num 3).
Proof.
  intros layer updates erasing.
  assert (js.get layer "id" = js.Str "background") as Hid by reflexivity.
  split; [exact Hid|].
  destruct (canvas_update_bumps_version (js.Str "background") updates layer Hid)
    as [H _].
  destruct (H eq_refl) as (_ & H2 & _).
  split; [apply (H2 3%Z); [left; reflexivity|reflexivity|lia]|].
  destruct (canvas_update_bumps_version (js.Str "background") erasing layer Hid)
    as [_ H'].
  destruct (H' eq_refl) as (_ & H3 & H4).
  split; [exact H3|]. rewrite (H4 eq_refl). reflexivity.
Defined.

(** ** Further properties of a run *)

(** A run, by cases on the state of the target path. *)
Lemma run_outcome (files : gmap string file) :
  run files =
    match files !! target_path with
    | None => (inl FileNotFoundError, boot files)
    | Some f =>
        if can_read f then
          match body f with
          | None => (inl UnicodeDecodeError, boot files)
          | Some content =>
              match find old_text content with
              | None =>
                  (inr (),
                   {| fs := files; stdout := report content; written := [] |})
              | Some _ =>
                  if can_write f then
                    (inr (),
                     {| fs := <[target_path :=
                                  plain (str_replace old_text new_text content)]>
                                files;
                        stdout := [msg_fixed];
                        written :=
                          [(target_path,
                            str_replace old_text new_text content)] |})
                  else (inl PermissionError, boot files)
              end
          end
        else (inl PermissionError, boot files)
    end.
Proof.
  destruct (files !! target_path) as [f|] eqn:Hf.
  - destruct (can_read f) eqn:Hr; [destruct (body f) as [content|] eqn:Hb|].
    + apply (run_readable files f content Hf Hr Hb).
    + apply run_unreadable. unfold read_text. cbn [fs boot].
      rewrite Hf, Hr, Hb. reflexivity.
    + apply run_unreadable. unfold read_text. cbn [fs boot].
      rewrite Hf, Hr. reflexivity.
  - apply run_unreadable. unfold read_text. cbn [fs boot].
    rewrite Hf. reflexivity.
Qed.

Lemma patched_is_clean (content : text) :
  find old_text (str_replace old_text new_text content) = None.
Proof.
  apply str_replace_clean;
    auto using old_text_nonempty, old_new_border, old_not_in_new.
Qed.

(** Only the target path is touched: every other path of the file system
    holds after the run what it held before. *)
Theorem other_paths_untouched (files : gmap string file) (path : string) :
  path ≠ target_path →
  fs (run files).2 !! path = files !! path.
Proof.
  intros Hp. rewrite run_outcome.
  destruct (files !! target_path) as [f|]; [|reflexivity].
  destruct (can_read f); [|reflexivity].
  destruct (body f) as [content|]; [|reflexivity].
  destruct (find old_text content); [|reflexivity].
  destruct (can_write f); [|reflexivity].
  cbn [snd fs]. apply lookup_insert_ne. congruence.
Qed.

Lemma other_paths_untouched_witness :
  let files : gmap string file :=
    {[ target_path := plain old_text;
       "src/App.tsx"%string := plain old_text ]} in
  target_text (run files).2 = Some new_text
  ∧ fs (run files).2 !! "src/App.tsx"%string = Some (plain old_text).
Proof.
  intros files. split; [vm_compute; reflexivity|].
  rewrite (other_paths_untouched files "src/App.tsx"%string);
    [reflexivity|discriminate].
Defined.

(** The run reads nothing but the target: two file systems that agree on
    the target path give the same result, the same output and the same
    writes. *)
Theorem depends_on_target_only (files1 files2 : gmap string file) :
  files1 !! target_path = files2 !! target_path →
  (run files1).1 = (run files2).1
  ∧ stdout (run files1).2 = stdout (run files2).2
  ∧ written (run files1).2 = written (run files2).2.
Proof.
  intros H. rewrite !run_outcome, <- H.
  destruct (files1 !! target_path) as [f|]; [|auto].
  destruct (can_read f); [|auto].
  destruct (body f) as [content|]; [|auto].
  destruct (find old_text content); [|auto].
  destruct (can_write f); auto.
Qed.

Lemma depends_on_target_only_witness :
  let files1 : gmap string file := {[ target_path := plain old_text ]} in
  let files2 : gmap string file :=
    {[ target_path := plain old_text;
       "README.md"%string := plain new_text ]} in
  files1 !! target_path = files2 !! target_path
  ∧ (run files1).1 = (run files2).1
  ∧ stdout (run files1).2 = stdout (run files2).2
  ∧ written (run files1).2 = written (run files2).2.
Proof.
  intros files1 files2.
  assert (files1 !! target_path = files2 !! target_path) as H by reflexivity.
  split; [exact H|].
  apply (depends_on_target_only files1 files2 H).
Defined.

(** A match on a file that may be read but not written: opening it for
    writing raises, before the success line; nothing is printed, nothing
    is written and the file system is as it was. *)
Theorem refused_write_aborts (files : gmap string file) (f : file)
    (content : text) (span : nat * nat) :
  files !! target_path = Some f →
  can_read f = true → body f = Some content →
  re.search old_pattern content true = Some (Some span) →
  can_write f = false →
  run files = (inl PermissionError, boot files)
  ∧ fs (run files).2 = files
  ∧ written (run files).2 = []
  ∧ stdout (run files).2 = [].
Proof.
  intros Hf Hr Hb Hs Hw. destruct span as [i n].
  apply search_some_find in Hs as [F _].
  rewrite (refused_write_raises files f content i Hf Hr Hb F Hw). auto.
Qed.

Lemma refused_write_aborts_witness :
  let f := {| can_read := true; can_write := false; body := Some old_text |} in
  let files : gmap string file := {[ target_path := f ]} in
  re.search old_pattern old_text true = Some (Some (0, 228))
  ∧ run files = (inl PermissionError, boot files)
  ∧ fs (run files).2 = files
  ∧ written (run files).2 = []
  ∧ stdout (run files).2 = [].
Proof.
  intros f files.
  assert (re.search old_pattern old_text true = Some (Some (0, 228))) as Hs
    by (vm_compute; reflexivity).
  split; [exact Hs|].
  apply (refused_write_aborts files f old_text (0, 228));
    [reflexivity|reflexivity|reflexivity|exact Hs|reflexivity].
Defined.

(** The success line is never printed in vain: whenever it is in the
    output, one write was completed, to the target; the text written is
    the substituted content of the file that was read, it differs from
    that content, the fragment occurs in it no more, and it is what the
    target now holds. *)
Theorem success_means_written (files : gmap string file) :
  msg_fixed ∈ stdout (run files).2 →
  ∃ f content t,
    files !! target_path = Some f
    ∧ body f = Some content
    ∧ re.sub old_pattern new_code content true = Some t
    ∧ t ≠ content
    ∧ contains old_text t = false
    ∧ written (run files).2 = [(target_path, t)]
    ∧ target_text (run files).2 = Some t.
Proof.
  rewrite run_outcome.
  destruct (files !! target_path) as [f|] eqn:Hf;
    [|cbn [snd boot stdout]; intros H; apply elem_of_nil in H; destruct H].
  destruct (can_read f);
    [|cbn [snd boot stdout]; intros H; apply elem_of_nil in H; destruct H].
  destruct (body f) as [content|] eqn:Hb;
    [|cbn [snd boot stdout]; intros H; apply elem_of_nil in H; destruct H].
  destruct (find old_text content) as [i|] eqn:F.
  - destruct (can_write f);
      [|cbn [snd boot stdout]; intros H; apply elem_of_nil in H; destruct H].
    intros _. exists f, content, (str_replace old_text new_text content).
    split; [reflexivity|]. split; [exact Hb|].
    split; [apply re_sub_replace|].
    split; [exact (patched_differs content i F)|].
    split; [unfold contains; rewrite patched_is_clean; reflexivity|].
    split; [reflexivity|].
    unfold target_text. cbn [snd fs]. rewrite lookup_insert_eq. reflexivity.
  - cbn [snd stdout]. intros H. destruct (report_has_no_success content H).
Qed.

Lemma success_means_written_witness :
  let content := chars "// layers" ++ old_text in
  let files : gmap string file := {[ target_path := plain content ]} in
  msg_fixed ∈ stdout (run files).2
  ∧ ∃ f content t,
      files !! target_path = Some f
      ∧ body f = Some content
      ∧ re.sub old_pattern new_code content true = Some t
      ∧ t ≠ content
      ∧ contains old_text t = false
      ∧ written (run files).2 = [(target_path, t)]
      ∧ target_text (run files).2 = Some t.
Proof.
  intros content files.
  assert (stdout (run files).2 = [msg_fixed]) as E by (vm_compute; reflexivity).
  assert (msg_fixed ∈ stdout (run files).2) as H by (rewrite E; constructor).
  split; [exact H|].
  apply (success_means_written files H).
Defined.

(** A second run never writes: on the file system that any run leaves,
    whether that run patched the file, found nothing to patch or was
    aborted, another run writes nothing and leaves every file as it is. *)
Theorem rerun_is_stable (files : gmap string file) :
  written (run (fs (run files).2)).2 = []
  ∧ fs (run (fs (run files).2)).2 = fs (run files).2.
Proof.
  assert (∀ fl : gmap string file,
            (∀ f content i, fl !! target_path = Some f → can_read f = true →
                            body f = Some content →
                            find old_text content = Some i →
                            can_write f = false) →
            written (run fl).2 = [] ∧ fs (run fl).2 = fl) as Quiet.
  { intros fl H. rewrite run_outcome.
    destruct (fl !! target_path) as [f|] eqn:Hf; [|auto].
    destruct (can_read f) eqn:Hr; [|auto].
    destruct (body f) as [content|] eqn:Hb; [|auto].
    destruct (find old_text content) as [i|] eqn:F; [|auto].
    rewrite (H f content i eq_refl Hr Hb F). auto. }
  rewrite (run_outcome files).
  destruct (files !! target_path) as [f|] eqn:Hf.
  2:{ cbn [snd fs boot]. apply Quiet. intros f c i Hf'. congruence. }
  destruct (can_read f) eqn:Hr.
  2:{ cbn [snd fs boot]. apply Quiet. intros f' c i Hf' Hr'. congruence. }
  destruct (body f) as [content|] eqn:Hb.
  2:{ cbn [snd fs boot]. apply Quiet. intros f' c i Hf' _ Hb'. congruence. }
  destruct (find old_text content) as [i|] eqn:F.
  - destruct (can_write f) eqn:Hw.
    + cbn [snd fs]. apply Quiet. intros f' c j Hf' _ Hb' Hc.
      rewrite lookup_insert_eq in Hf'. injection Hf' as <-.
      cbn [body plain] in Hb'. injection Hb' as <-.
      pose proof (patched_is_clean content) as Clean.
      rewrite (str_replace_unfold old_text new_text old_text_nonempty) in Clean.
      congruence.
    + cbn [snd fs boot]. apply Quiet. intros f' c j Hf' _ Hb' _.
      congruence.
  - cbn [snd fs]. apply Quiet. intros f' c j Hf' _ Hb' Hc.
    assert (f' = f) as -> by congruence.
    assert (c = content) as -> by congruence.
    congruence.
Qed.

(** The silent case of the diagnostics: when the pattern does not match
    and the signature is not in the file, the not-found line is the whole
    output, whether or not the marker is there, and nothing is written. *)
Theorem absent_signature_is_silent
    (files : gmap string file) (f : file) (content : text) :
  files !! target_path = Some f →
  can_read f = true → body f = Some content →
  re.search old_pattern content true = Some None →
  contains (chars signature) content = false →
  run files =
    (inr (), {| fs := files; stdout := [msg_not_found]; written := [] |}).
Proof.
  intros Hf Hr Hb F%search_none_find Hsig.
  rewrite (run_readable files f content Hf Hr Hb), F.
  unfold report. rewrite Hsig. reflexivity.
Qed.

Lemma absent_signature_is_silent_witness :
  let content := chars "  const newUpdates = updates.canvas ? a : b;" in
  let files : gmap string file := {[ target_path := plain content ]} in
  re.search old_pattern content true = Some None
  ∧ contains (chars signature) content = false
  ∧ contains (chars patched_marker) content = true
  ∧ run files =
      (inr (), {| fs := files; stdout := [msg_not_found]; written := [] |}).
Proof.
  intros content files.
  assert (re.search old_pattern content true = Some None) as H1
    by (vm_compute; reflexivity).
  assert (contains (chars signature) content = false) as H2
    by (vm_compute; reflexivity).
  split; [exact H1|]. split; [exact H2|].
  split; [vm_compute; reflexivity|].
  apply (absent_signature_is_silent files (plain content) content);
    [reflexivity|reflexivity|reflexivity|exact H1|exact H2].
Defined.

Lemma not_in_report (line : string) (content : text) :
  line ∈ report content →
  line = msg_not_found
  ∨ (contains (chars signature) content = true
     ∧ (line = msg_found
        ∨ (line = msg_already
           ∧ contains (chars patched_marker) content = true)
        ∨ (line = msg_manual
           ∧ contains (chars patched_marker) content = false))).
Proof.
  unfold report.
  destruct (contains (chars signature) content);
    [destruct (contains (chars patched_marker) content)|];
    intros H; repeat (apply elem_of_cons in H as [->|H]); auto 6;
    apply elem_of_nil in H; destruct H.
Qed.

(** What the two closing lines of the diagnostics mean, on a file that
    can be read: "already patched" is printed exactly when the pattern
    does not match and signature and marker are both in the file, "manual
    intervention" exactly when the pattern does not match, the signature
    is in the file and the marker is not. *)
Theorem diagnostics_exact
    (files : gmap string file) (f : file) (content : text) :
  files !! target_path = Some f →
  can_read f = true → body f = Some content →
  (msg_already ∈ stdout (run files).2
   ↔ re.search old_pattern content true = Some None
     ∧ contains (chars signature) content = true
     ∧ contains (chars patched_marker) content = true)
  ∧ (msg_manual ∈ stdout (run files).2
     ↔ re.search old_pattern content true = Some None
       ∧ contains (chars signature) content = true
       ∧ contains (chars patched_marker) content = false).
Proof.
  intros Hf Hr Hb. rewrite (run_readable files f content Hf Hr Hb).
  rewrite search_none_find.
  destruct (find old_text content) as [i|].
  - assert (∀ line : string,
              line ≠ msg_fixed →
              ¬ line ∈ stdout
                  (let new_content := str_replace old_text new_text content in
                   if can_write f
                   then (inr (),
                         {| fs := <[target_path := plain new_content]> files;
                            stdout := [msg_fixed];
                            written := [(target_path, new_content)] |})
                   else (inl PermissionError, boot files)).2) as Quiet.
    { intros line Hl. cbv zeta. destruct (can_write f); cbn [snd stdout boot];
        intros H; repeat (apply elem_of_cons in H as [H|H]; [congruence|]);
        apply elem_of_nil in H; exact H. }
    split; split.
    + intros H. exfalso. revert H. apply Quiet. discriminate.
    + intros [H _]. discriminate H.
    + intros H. exfalso. revert H. apply Quiet. discriminate.
    + intros [H _]. discriminate H.
  - cbn [snd stdout]. split; split.
    + intros [H|(Hs & [H|[[_ Hm]|[H _]]])]%not_in_report;
        try discriminate H. auto.
    + intros (_ & Hs & Hm). unfold report. rewrite Hs, Hm.
      do 2 constructor. constructor.
    + intros [H|(Hs & [H|[[H _]|[_ Hm]]])]%not_in_report;
        try discriminate H. auto.
    + intros (_ & Hs & Hm). unfold report. rewrite Hs, Hm.
      do 2 constructor. constructor.
Qed.

Lemma diagnostics_exact_witness :
  let files : gmap string file := {[ target_path := plain new_text ]} in
  msg_already ∈ stdout (run files).2
  ∧ ¬ msg_manual ∈ stdout (run files).2.
Proof.
  intros files.
  destruct (diagnostics_exact files (plain new_text) new_text
              eq_refl eq_refl eq_refl) as [Ha Hm].
  split.
  - apply Ha. vm_compute. auto.
  - intros H. apply Hm in H as (_ & _ & H). vm_compute in H. discriminate H.
Defined.

(** Each replaced occurrence lengthens the text by the same 424
    characters, the difference between the replacement and the fragment;
    the text keeps its length only when it is unchanged. *)
Theorem patched_length (s : text) (multiline : bool) :
  ∃ t k,
    re.sub old_pattern new_code s multiline = Some t
    ∧ length t = length s + 424 * k
    ∧ (k = 0 ↔ t = s).
Proof.
  rewrite re_sub_replace.
  induction s as [s F|s i F IH]
    using (occurrence_ind old_text old_text_nonempty).
  - exists s, 0.
    rewrite (str_replace_none old_text new_text old_text_nonempty s F).
    split; [reflexivity|]. split; [lia|]. split; reflexivity.
  - destruct IH as (t & k & Ht & Hlen & _).
    assert (t = str_replace old_text new_text (drop (i + length old_text) s))
      as -> by congruence.
    exists (str_replace old_text new_text s), (S k).
    split; [reflexivity|].
    pose proof (patched_differs s i F) as D.
    pose proof (find_Some_split _ _ _ old_text_nonempty F) as [_ Hl].
    split; [|split; [discriminate|intros E; destruct (D E)]].
    rewrite (str_replace_some old_text new_text old_text_nonempty s i F).
    rewrite !length_app, length_take, Hlen, length_drop.
    rewrite old_text_length in *. rewrite new_text_length. lia.
Qed.

(** ** Further properties of the callback *)

Lemma update_one_other_id (id : js.value) (updates layer : gmap string js.value) :
  js.get layer "id" ≠ id → js.update_one id updates layer = Some layer.
Proof.
  intros H. unfold js.update_one, js.strict_ne.
  rewrite bool_decide_eq_false_2 by exact H. reflexivity.
Qed.

(** On a countable prior version, or when the update gives a version,
    the version expression of the replacement has a value. *)
Lemma version_expression_defined (given prior : js.value) :
  js.countable prior = true →
  ∃ v, js.coalesce given (js.add (js.or prior (js.Num 0)) (js.Num 1)) = Some v.
Proof.
  intros Hc.
  assert (∃ w, js.add (js.or prior (js.Num 0)) (js.Num 1) = Some w) as [w Hw].
  { destruct prior as [| |[]|n|s|r]; try (eexists; reflexivity);
      [| |discriminate Hc].
    - eexists. apply increment_number.
      unfold js.countable in Hc. apply andb_true_iff in Hc as [H1 H2].
      apply Z.leb_le in H1. apply Z.ltb_lt in H2. auto.
    - unfold js.or, js.truthy. destruct (String.eqb s ""); cbn [negb];
        eexists; reflexivity. }
  rewrite Hw. destruct given; eexists; reflexivity.
Qed.

Lemma update_one_defined (id : js.value) (updates layer : gmap string js.value) :
  js.countable (js.get layer "version") = true →
  ∃ merged, js.update_one id updates layer = Some merged.
Proof.
  intros Hc. unfold js.update_one, js.newUpdates.
  destruct (js.strict_ne (js.get layer "id") id); [eauto|].
  destruct (js.truthy (js.get updates "canvas")); [|eauto].
  destruct (version_expression_defined (js.get updates "version") _ Hc)
    as [v ->].
  eauto.
Qed.

(** The patch changes the callback on canvas updates only, and there only
    in the version: on a layer whose prior version is countable the new
    callback returns a layer; without a canvas in the update it is the
    layer the original callback returned, and with one, every property of
    it other than [version] is what the original callback gave. *)
Theorem patched_callback_refines
    (id : js.value) (updates layer : gmap string js.value) :
  js.countable (js.get layer "version") = true →
  ∃ merged,
    js.update_one id updates layer = Some merged
    ∧ (js.truthy (js.get updates "canvas") = false →
       merged = js.update_one_old id updates layer)
    ∧ (∀ k : string, k ≠ "version"%string →
         merged !! k = js.update_one_old id updates layer !! k).
Proof.
  intros Hc. destruct (update_one_defined id updates layer Hc) as [merged E].
  exists merged. split; [exact E|]. revert E.
  unfold js.update_one, js.update_one_old, js.strict_ne, js.newUpdates.
  destruct (bool_decide (js.get layer "id" = id)); cbn [negb].
  - destruct (js.truthy (js.get updates "canvas")).
    + destruct (js.coalesce _ _) as [v|]; cbn [mbind option_bind];
        [|discriminate].
      intros E. injection E as <-. split; [discriminate|].
      intros k Hk. rewrite !lookup_union, lookup_insert_ne by congruence.
      reflexivity.
    + cbn [mbind option_bind]. intros E. injection E as <-. auto.
  - intros E. injection E as <-. auto.
Qed.

Lemma patched_callback_refines_witness :
  let layer : gmap string js.value :=
    {[ "id" := js.Str "background"; "name" := js.Str "Sky";
       "version" := js.Str "3" ]} in
  let renaming : gmap string js.value := {[ "name" := js.Str "Sea" ]} in
  let drawing : gmap string js.value :=
    {[ "canvas" := js.Ref 7; "name" := js.Str "Sea" ]} in
  js.update_one (js.Str "background") renaming layer
  = Some (js.update_one_old (js.Str "background") renaming layer)
  ∧ ∃ merged,
      js.update_one (js.Str "background") drawing layer = Some merged
      ∧ merged !! "version" = Some (js.Str "31")
      ∧ merged !! "name"
        = js.update_one_old (js.Str "background") drawing layer !! "name".
Proof.
  intros layer renaming drawing. split.
  - destruct (patched_callback_refines (js.Str "background") renaming layer)
      as (merged & E & H & _); [reflexivity|].
    rewrite E, (H eq_refl). reflexivity.
  - destruct (patched_callback_refines (js.Str "background") drawing layer)
      as (merged & E & _ & H); [reflexivity|].
    exists merged. split; [exact E|]. split.
    + assert (js.update_one (js.Str "background") drawing layer
              = Some (<["version" := js.Str "31"]> drawing ∪ layer)) as E'
        by (vm_compute; reflexivity).
      rewrite E in E'. injection E' as ->.
      apply lookup_union_Some_l, lookup_insert_eq.
    + apply H. discriminate.
Defined.

(** Canvas updates count: two canvas updates in a row, neither giving a
    version nor an id, raise a version [p] of the layer to [p + 1] and
    then to [p + 2], as long as these are integers that doubles hold
    exactly. *)
Theorem two_canvas_updates
    (id : js.value) (updates layer : gmap string js.value) (p : Z) :
  js.get layer "id" = id →
  js.truthy (js.get updates "canvas") = true →
  updates !! "version" = None →
  updates !! "id" = None →
  js.get layer "version" = js.Num p →
  (- 2 ^ 53 ≤ p)%Z → (p + 2 ≤ 2 ^ 53)%Z →
  ∃ once twice,
    js.update_one id updates layer = Some once
    ∧ js.update_one id updates once = Some twice
    ∧ once !! "version" = Some (js.Num (p + 1))
    ∧ twice !! "version" = Some (js.Num (p + 2)).
Proof.
  intros Hid Hc Hv Hi Hp Hlo Hhi.
  assert (∀ l q, js.get l "id" = id → js.get l "version" = js.Num q →
            (- 2 ^ 53 ≤ q < 2 ^ 53)%Z →
            js.update_one id updates l
            = Some (<["version" := js.Num (q + 1)]> updates ∪ l)) as Step.
  { intros l q Hl Hq Hr. rewrite (update_one_same_id id updates l Hl).
    unfold js.newUpdates. rewrite Hc, (get_absent _ _ Hv), Hq.
    cbn [js.coalesce]. rewrite (increment_number q Hr). reflexivity. }
  set (once := <["version" := js.Num (p + 1)]> updates ∪ layer).
  assert (once !! "version" = Some (js.Num (p + 1))) as Hv1.
  { apply lookup_union_Some_l, lookup_insert_eq. }
  assert (js.get once "id" = id) as Hid1.
  { rewrite <- Hid. unfold js.get, once. f_equal.
    apply lookup_union_r. rewrite lookup_insert_ne by discriminate. exact Hi. }
  assert (js.get once "version" = js.Num (p + 1)) as Hg1.
  { unfold js.get. rewrite Hv1. reflexivity. }
  exists once, (<["version" := js.Num (p + 1 + 1)]> updates ∪ once).
  split; [apply (Step layer p Hid Hp); lia|].
  split; [apply (Step once (p + 1)%Z Hid1 Hg1); lia|].
  split; [exact Hv1|].
  replace (p + 2)%Z with (p + 1 + 1)%Z by lia.
  apply lookup_union_Some_l, lookup_insert_eq.
Qed.

Lemma two_canvas_updates_witness :
  let layer : gmap string js.value :=
    {[ "id" := js.Str "background"; "version" := js.Num 3 ]} in
  let updates : gmap string js.value := {[ "canvas" := js.Ref 7 ]} in
  ∃ once twice,
    js.update_one (js.Str "background") updates layer = Some once
    ∧ js.update_one (js.Str "background") updates once = Some twice
    ∧ once !! "version" = Some (js.Num 4)
    ∧ twice !! "version" = Some (js.Num 5).
Proof.
  intros layer updates.
  apply (two_canvas_updates (js.Str "background") updates layer 3);
    [reflexivity|reflexivity|reflexivity|reflexivity|reflexivity|lia|lia].
Defined.

(** [updateLayer] on a studio whose layers have countable versions
    returns a studio: the layers are as many as before, every layer with
    another id is in its place unchanged, and the dirty flag is set. *)
Theorem updateLayer_shape
    (id : string) (updates : gmap string js.value) (st : js.studio) :
  Forall (fun layer => js.countable (js.get layer "version") = true)
    (js.layers st) →
  ∃ st',
    js.updateLayer id updates st = Some st'
    ∧ js.isDirty st' = true
    ∧ length (js.layers st') = length (js.layers st)
    ∧ (∀ i layer, js.layers st !! i = Some layer →
         js.get layer "id" ≠ js.Str id →
         js.layers st' !! i = Some layer).
Proof.
  intros Hall. unfold js.updateLayer.
  destruct (mapM (js.update_one (js.Str id) updates) (js.layers st))
    as [ls|] eqn:E.
  - cbn [mbind option_bind]. eexists. split; [reflexivity|].
    cbn [js.isDirty js.layers]. apply mapM_Some in E.
    split; [reflexivity|]. split.
    + symmetry. eapply Forall2_length, E.
    + intros i layer Hi Hne.
      destruct (Forall2_lookup_l _ _ _ _ _ E Hi) as (y & Hy & Hu).
      rewrite (update_one_other_id _ _ _ Hne) in Hu. congruence.
  - exfalso.
    assert (is_Some (mapM (js.update_one (js.Str id) updates) (js.layers st)))
      as [ls' Hs]; [|congruence].
    apply mapM_is_Some. eapply Forall_impl; [exact Hall|].
    intros layer Hc. cbn.
    destruct (update_one_defined (js.Str id) updates layer Hc) as [m Hm].
    rewrite Hm. eauto.
Qed.

Lemma updateLayer_shape_witness :
  let mask : gmap string js.value :=
    {[ "id" := js.Str "mask"; "version" := js.Num 2 ]} in
  let sky : gmap string js.value :=
    {[ "id" := js.Str "sky"; "version" := js.Num 3 ]} in
  let updates : gmap string js.value := {[ "canvas" := js.Ref 7 ]} in
  let st := {| js.layers := [mask; sky]; js.isDirty := false |} in
  ∃ st', js.updateLayer "sky" updates st = Some st'
         ∧ js.isDirty st' = true
         ∧ length (js.layers st') = 2
         ∧ js.layers st' !! 0 = Some mask.
Proof.
  intros mask sky updates st.
  destruct (updateLayer_shape "sky" updates st) as (st' & E & Hd & Hl & Hk).
  - repeat constructor.
  - exists st'. split; [exact E|]. split; [exact Hd|]. split; [exact Hl|].
    apply (Hk 0 mask); [reflexivity|discriminate].
Defined.
